(** * PaperTTY: the Waveshare 4.2 inch V2 e-paper driver
    (papertty/drivers/drivers_4in2v2.py, class EPD4in2v2)

    A shallow embedding of the driver: the bit-packed frame buffer with its
    merge and read-back loops, the command/data framing on the serial bus,
    the busy-wait gate, and the refresh sequences built from them.

    Python integers are [Z]; the frame buffer is a Python list of integers,
    here [list Z] with stdpp's lookup and insert; the driver's methods live
    in a small state monad over the driver object and the board it talks
    to.  Diagnostic [print] calls are left out. *)

From Stdlib Require Import ZArith List Lia Bool.
From stdpp Require Import base tactics option list numbers.
Import ListNotations.
Local Open Scope Z_scope.

(* ===================================================================== *)
(** ** Python values used by the driver *)

Module Py.

(** [range(n)]: 0, 1, ..., n-1, empty for n <= 0. *)
Definition range (n : Z) : list Z := seqZ 0 n.

(** Resolution of a list subscript [l[k]]: negative subscripts count from
    the end, anything else outside the list is an [IndexError]. *)
Definition index (len : nat) (k : Z) : option nat :=
  if (0 <=? k) && (k <? Z.of_nat len) then Some (Z.to_nat k)
  else if (- Z.of_nat len <=? k) && (k <? 0) then Some (Z.to_nat (Z.of_nat len + k))
  else None.

(** [[v] * n]: n copies, none for n <= 0. *)
Definition list_mul (v : Z) (n : Z) : list Z := replicate (Z.to_nat n) v.

(** [int(a / b)] on integers: true division, then truncation towards
    zero.  The quotients taken by the driver are far below 2^53, where
    the floating-point quotient truncates to the integer quotient. *)
Definition int_truediv (a b : Z) : Z := Z.quot a b.

(** The truth value of an attribute that holds [None], [False] or
    [True]. *)
Definition truth (a : option bool) : bool :=
  match a with
  | Some b => b
  | None => false
  end.

End Py.

(** The exceptions the driver's calls raise. *)
Inductive exn : Type := IndexError | ZeroDivisionError | ValueError | OverflowError.

(* ===================================================================== *)
(** ** PIL images of mode '1' *)

Module Image.

(** A bitmap is its size and its pixel store.  The driver only touches
    pixels through [load()] at coordinates inside the image it loops
    over, where the store is a total map from coordinates to values. *)
Record t : Type := mk { size : Z * Z; load : Z -> Z -> Z }.

(** The colour white in mode '1'. *)
Definition white : Z := 255.

(** The bitmap of the given size whose pixels all hold [color]. *)
Definition solid (sz : Z * Z) (color : Z) : t :=
  {| size := sz; load := fun _ _ => color |}.

(** The value PIL stores for an integer colour: clipped to 0..255. *)
Definition clip8 (v : Z) : Z :=
  if v <? 0 then 0 else if 255 <? v then 255 else v.

(** [Image.new('1', size, color)] for an integer colour: a negative width
    or height is a [ValueError], one that does not fit a C int an
    [OverflowError]; otherwise the bitmap of the clipped colour.  The
    allocation itself is taken to succeed. *)
Definition new (sz : Z * Z) (color : Z) : exn + t :=
  if (fst sz <? 0) || (snd sz <? 0) then inl ValueError
  else if (2 ^ 31 <=? fst sz) || (2 ^ 31 <=? snd sz) then inl OverflowError
  else inr (solid sz (clip8 color)).

(** Sizes [Image.new] accepts. *)
Definition size_ok (sz : Z * Z) : bool :=
  (0 <=? fst sz) && (fst sz <? 2 ^ 31) && (0 <=? snd sz) && (snd sz <? 2 ^ 31).

(** [pi[i, j] = v]. *)
Definition store (im : t) (i j v : Z) : t :=
  {| size := size im;
     load := fun i' j' => if (i' =? i) && (j' =? j) then v else load im i' j' |}.

(** Mode '1' convention: a zero pixel is black, any other value is
    white. *)
Definition is_black (v : Z) : bool := v =? 0.
Definition is_white (v : Z) : bool := negb (v =? 0).

End Image.

(* ===================================================================== *)
(** ** The driver object and the board *)

(** The pin roles of the base driver: reset, data/command select, chip
    select (outputs) and busy (input).  This class only names them. *)
Inductive pin : Type := RST_PIN | DC_PIN | CS_PIN | BUSY_PIN.

(** Pin levels. *)
Module GPIO.
Definition LOW : Z := 0.
Definition HIGH : Z := 1.
End GPIO.

(** What the board sees and answers, one entry per primitive call. *)
Inductive event : Type :=
| EpdInit (status : Z)
| DigitalWrite (p : pin) (level : Z)
| DigitalRead (p : pin) (level : Z)
| SpiTransfer (bytes : list Z)
| DelayMs (ms : Z).

(** Attributes of an [EPD4in2v2] instance.  [partial_refresh] holds [None]
    from the constructor of the base driver until [init] or [init_fast]
    assigns it; [gray] is only ever assigned. *)
Record EPD4in2v2 : Type := mkEPD {
  width : Z;
  height : Z;
  supports_partial : bool;
  partial_refresh : option bool;
  gray : option bool;
  frame_buffer : list Z
}.

(** The board: the levels the BUSY pin will show on the coming reads, and
    the status the transport bring-up answers with. *)
Record board : Type := mkBoard {
  busy_line : list Z;
  bring_up : Z
}.

Record machine : Type := mkMachine { self : EPD4in2v2; hw : board }.

(** Result of running a method: it returns (with the new machine and the
    board events it caused, oldest first), raises, or is still polling the
    BUSY pin when the supplied levels are used up. *)
Inductive outcome (A : Type) : Type :=
| Done (a : A) (m : machine) (out : list event)
| Raised (e : exn)
| Polling.
Arguments Done {A} a m out.
Arguments Raised {A} e.
Arguments Polling {A}.

Definition M (A : Type) : Type := machine -> outcome A.

(** Events already caused stay in front of what follows. *)
Definition prepend {A} (o1 : list event) (r : outcome A) : outcome A :=
  match r with
  | Done b m2 o2 => Done b m2 (o1 ++ o2)
  | Raised e => Raised e
  | Polling => Polling
  end.

#[global] Instance M_ret : MRet M := fun A a m => Done a m [].
#[global] Instance M_bind : MBind M := fun A B f c m =>
  match c m with
  | Done a m1 o1 => prepend o1 (f a m1)
  | Raised e => Raised e
  | Polling => Polling
  end.

Definition raise {A} (e : exn) : M A := fun _ => Raised e.

(** The result of a call that returns or raises without touching the
    machine. *)
Definition returned {A} (r : exn + A) : M A := fun m =>
  match r with
  | inl e => Raised e
  | inr a => Done a m []
  end.

Definition emit (e : event) : M unit := fun m => Done tt m [e].
Definition getattr {A} (f : EPD4in2v2 -> A) : M A := fun m => Done (f (self m)) m [].
Definition update (f : EPD4in2v2 -> EPD4in2v2) : M unit :=
  fun m => Done tt {| self := f (self m); hw := hw m |} [].

(** [for x in l: acc = body(x, acc)]. *)
Fixpoint for_in {A S : Type} (l : list A) (body : A -> S -> M S) (acc : S) : M S :=
  match l with
  | [] => mret acc
  | x :: l' => acc' ← body x acc; for_in l' body acc'
  end.

(** [for x in l: body(x)]. *)
Definition for_each {A : Type} (l : list A) (body : A -> M unit) : M unit :=
  for_in l (fun x _ => body x) tt.

Definition with_frame_buffer (fb : list Z) (d : EPD4in2v2) : EPD4in2v2 :=
  {| width := width d; height := height d; supports_partial := supports_partial d;
     partial_refresh := partial_refresh d; gray := gray d; frame_buffer := fb |}.

Definition with_mode (p g : bool) (d : EPD4in2v2) : EPD4in2v2 :=
  {| width := width d; height := height d; supports_partial := supports_partial d;
     partial_refresh := Some p; gray := Some g; frame_buffer := frame_buffer d |}.

(** [self.frame_buffer[k]]. *)
Definition fb_get (k : Z) : M Z := fun m =>
  let fb := frame_buffer (self m) in
  match Py.index (length fb) k with
  | Some n => match fb !! n with Some v => Done v m [] | None => Raised IndexError end
  | None => Raised IndexError
  end.

(** [self.frame_buffer[k] = v]. *)
Definition fb_set (k v : Z) : M unit := fun m =>
  let fb := frame_buffer (self m) in
  match Py.index (length fb) k with
  | Some n => Done tt {| self := with_frame_buffer (<[n:=v]> fb) (self m); hw := hw m |} []
  | None => Raised IndexError
  end.

(** [self.partial_refresh] as a condition: [None], the value the
    constructor leaves, counts as false. *)
Definition get_partial_refresh : M bool := fun m =>
  Done (Py.truth (partial_refresh (self m))) m [].

(* ===================================================================== *)
(** ** Transport primitives of the base driver *)

(** The base driver (papertty/drivers/drivers_base.py) provides the
    transport: the spec's capability interface digitalWrite(pin, level),
    digitalRead(pin) -> level, transferBytes(bytes), delayMs(n) and
    transportInit() -> status.  Each call is one board event. *)

(** Modelled from the spec: [digital_write(pin, level)] of the base driver,
    digitalWrite(pin, level). *)
Definition digital_write (p : pin) (level : Z) : M unit := emit (DigitalWrite p level).

(** Modelled from the spec: [spi_transfer(bytes)] of the base driver,
    transferBytes(bytes) over the serial bus. *)
Definition spi_transfer (bytes : list Z) : M unit := emit (SpiTransfer bytes).

(** Modelled from the spec: [delay_ms(n)] of the base driver, delayMs(n). *)
Definition delay_ms (ms : Z) : M unit := emit (DelayMs ms).

(** Modelled from the spec: [epd_init()] of the base driver,
    transportInit() -> status, opaque to this driver: it answers with the
    board's bring-up status. *)
Definition epd_init : M Z := fun m =>
  Done (bring_up (hw m)) m [EpdInit (bring_up (hw m))].

(** Modelled from the spec: [digital_read(pin)] of the base driver,
    digitalRead(pin) -> level: it takes the next level off the BUSY line,
    and has nothing to return once the supplied levels are used up. *)
Definition digital_read (p : pin) : M Z := fun m =>
  match busy_line (hw m) with
  | [] => Polling
  | v :: rest =>
      Done v {| self := self m; hw := {| busy_line := rest; bring_up := bring_up (hw m) |} |}
           [DigitalRead p v]
  end.

(* ===================================================================== *)
(** ** class EPD4in2v2 *)

(** [EPD4in2v2()]: the base constructor has set [partial_refresh] to
    [None]. *)
Definition __init__ : EPD4in2v2 :=
  let width := 400 in
  let height := 300 in
  {| width := width; height := height; supports_partial := true;
     partial_refresh := None; gray := None;
     frame_buffer := Py.list_mul 0xff ((width * height) `div` 8) |}.

Definition reset : M unit :=
  digital_write RST_PIN GPIO.HIGH;;
  delay_ms 100;;
  digital_write RST_PIN GPIO.LOW;;
  delay_ms 2;;
  digital_write RST_PIN GPIO.HIGH;;
  delay_ms 100.

Definition send_command (command : Z) : M unit :=
  digital_write DC_PIN GPIO.LOW;;
  digital_write CS_PIN GPIO.LOW;;
  spi_transfer [command];;
  digital_write CS_PIN GPIO.HIGH.

(** The argument of [send_data]: one integer or a list of them. *)
Inductive payload : Type := PInt (d : Z) | PList (data : list Z).

Definition send_data (data : payload) : M unit :=
  digital_write DC_PIN GPIO.HIGH;;
  digital_write CS_PIN GPIO.LOW;;
  match data with
  | PList data => for_each data (fun d => spi_transfer [d])
  | PInt data => spi_transfer [data]
  end;;
  digital_write CS_PIN GPIO.HIGH.

(** The polling loop of [wait_until_idle]; every turn takes one level off
    the BUSY line. *)
Fixpoint wait_loop (turns : nat) : M unit :=
  match turns with
  | O => fun _ => Polling
  | S n =>
      v ← digital_read BUSY_PIN;
      if v =? 1 then delay_ms 20;; wait_loop n else mret tt
  end.

Definition wait_until_idle : M unit := fun m =>
  wait_loop (S (length (busy_line (hw m)))) m.

Definition turn_on_display : M unit :=
  send_command 0x22;;
  send_data (PInt 0xF7);;
  send_command 0x20;;
  wait_until_idle.

Definition turn_on_display_fast : M unit :=
  send_command 0x22;;
  send_data (PInt 0xC7);;
  send_command 0x20;;
  wait_until_idle.

Definition turn_on_display_partial : M unit :=
  send_command 0x22;;
  send_data (PInt 0xFF);;
  send_command 0x20;;
  wait_until_idle.

Definition clear : M unit :=
  w ← getattr width;
  h ← getattr height;
  let linewidth :=
    if w `mod` 8 =? 0 then Py.int_truediv w 8 else Py.int_truediv w 8 + 1 in
  send_command 0x24;;
  send_data (PList (Py.list_mul 0xff (h * linewidth)));;
  send_command 0x26;;
  send_data (PList (Py.list_mul 0xff (h * linewidth)));;
  turn_on_display.

Definition turn_on_display_4gray : M unit :=
  send_command 0x22;;
  send_data (PInt 0xCF);;
  send_command 0x20;;
  wait_until_idle.

Definition init (partial gray : bool) : M (option Z) :=
  update (with_mode partial gray);;
  st ← epd_init;
  if negb (st =? 0) then mret (Some (-1))
  else
    reset;;
    wait_until_idle;;
    send_command 0x12;;
    wait_until_idle;;
    send_command 0x21;;
    send_data (PInt 0x40);;
    send_data (PInt 0x00);;
    send_command 0x3C;;
    send_data (PInt 0x05);;
    send_command 0x11;;
    send_data (PInt 0x03);;
    send_command 0x44;;
    send_data (PInt 0x00);;
    send_data (PInt 0x31);;
    send_command 0x45;;
    send_data (PInt 0x00);;
    send_data (PInt 0x00);;
    send_data (PInt 0x2B);;
    send_data (PInt 0x01);;
    send_command 0x4E;;
    send_data (PInt 0x00);;
    send_command 0x4F;;
    send_data (PInt 0x00);;
    send_data (PInt 0x00);;
    wait_until_idle;;
    clear;;
    mret None.

Definition init_fast (partial gray : bool) : M (option Z) :=
  update (with_mode partial gray);;
  st ← epd_init;
  if negb (st =? 0) then mret (Some (-1))
  else
    reset;;
    wait_until_idle;;
    send_command 0x12;;
    wait_until_idle;;
    send_command 0x21;;
    send_data (PInt 0x40);;
    send_data (PInt 0x00);;
    send_command 0x3C;;
    send_data (PInt 0x05);;
    send_command 0x1A;;
    send_data (PInt 0x5A);;
    send_command 0x22;;
    send_data (PInt 0x91);;
    send_command 0x20;;
    wait_until_idle;;
    send_command 0x11;;
    send_data (PInt 0x03);;
    send_command 0x44;;
    send_data (PInt 0x00);;
    send_data (PInt 0x31);;
    send_command 0x45;;
    send_data (PInt 0x00);;
    send_data (PInt 0x00);;
    send_data (PInt 0x2B);;
    send_data (PInt 0x01);;
    send_command 0x4E;;
    send_data (PInt 0x00);;
    send_command 0x4F;;
    send_data (PInt 0x00);;
    send_data (PInt 0x00);;
    wait_until_idle;;
    mret None.

Definition display_full : M unit :=
  send_command 0x24;;
  fb ← getattr frame_buffer;
  send_data (PList fb);;
  send_command 0x26;;
  fb ← getattr frame_buffer;
  send_data (PList fb);;
  turn_on_display.

Definition display_partial : M unit :=
  send_command 0x3C;;
  send_data (PInt 0x80);;
  send_command 0x21;;
  send_data (PInt 0x00);;
  send_data (PInt 0x00);;
  send_command 0x3C;;
  send_data (PInt 0x80);;
  send_command 0x44;;
  send_data (PInt 0x00);;
  send_data (PInt 0x31);;
  send_command 0x45;;
  send_data (PInt 0x00);;
  send_data (PInt 0x00);;
  send_data (PInt 0x2B);;
  send_data (PInt 0x01);;
  send_command 0x4E;;
  send_data (PInt 0x00);;
  send_command 0x4F;;
  send_data (PInt 0x00);;
  send_data (PInt 0x00);;
  send_command 0x24;;
  fb ← getattr frame_buffer;
  send_data (PList fb);;
  turn_on_display_partial.

Definition sleep : M unit :=
  send_command 0x10;;
  send_data (PInt 0x01).

(** [frame_buffer_to_image()]. *)
Definition frame_buffer_to_image : M Image.t :=
  w ← getattr width;
  h ← getattr height;
  im ← returned (Image.new (w, h) Image.white);
  for_in (Py.range h) (fun j im =>
    w ← getattr width;
    let idxj := (j * w) `div` 8 in
    w ← getattr width;
    for_in (Py.range w) (fun i im =>
      let idiv := i `div` 8 in
      let irem := i `mod` 8 in
      let mask := Z.shiftr 0x80 irem in
      let idxi := idiv in
      v ← fb_get (idxi + idxj);
      mret (Image.store im i j (Z.land v mask))) im) im.

(** [set_frame_buffer(x, y, image)], for an [image] that [convert('1')]
    leaves as it is. *)
Definition set_frame_buffer (x y : Z) (image : Image.t) : M unit :=
  let image_monocolor := image in
  let '(imwidth, imheight) := Image.size image_monocolor in
  let pixels := Image.load image_monocolor in
  for_each (Py.range imheight) (fun j =>
    w ← getattr width;
    let idxj := ((y + j) * w) `div` 8 in
    for_each (Py.range imwidth) (fun i =>
      let idiv := (x + i) `div` 8 in
      let irem := (x + i) `mod` 8 in
      let mask := Z.shiftr 0x80 irem in
      let idxi := idiv in
      if negb (pixels i j =? 0) then
        v ← fb_get (idxi + idxj);
        fb_set (idxi + idxj) (Z.lor v mask)
      else
        v ← fb_get (idxi + idxj);
        fb_set (idxi + idxj) (Z.land v (Z.lnot mask)))).

Definition draw (x y : Z) (image : Image.t) : M unit :=
  set_frame_buffer x y image;;
  p ← get_partial_refresh;
  if (p : bool) then display_partial else display_full.

(** [fill(color, fillsize)], with the [draw] method it dispatches to. *)
Definition fill_with (draw : Z -> Z -> Image.t -> M unit) (color fillsize : Z) : M unit :=
  h ← getattr height;
  if fillsize =? 0 then raise ZeroDivisionError
  else
    let div := h `div` fillsize in
    let rem := h `mod` fillsize in
    w ← getattr width;
    image ← returned (Image.new (w, fillsize) color);
    for_each (Py.range div) (fun i => draw 0 (i * fillsize) image);;
    if negb (rem =? 0) then
      w ← getattr width;
      image ← returned (Image.new (w, rem) color);
      draw 0 (div * fillsize) image
    else mret tt.

Definition fill : Z -> Z -> M unit := fill_with draw.

(* ===================================================================== *)
(** ** What the specification talks about *)

(** The driver object with another mirror, the board as it is. *)
Definition set_mirror (fb : list Z) (m : machine) : machine :=
  {| self := with_frame_buffer fb (self m); hw := hw m |}.

(** The shape [__init__] gives the object and every method keeps: a width
    of whole bytes, and a mirror of [width * height // 8] bytes. *)
Definition wf (d : EPD4in2v2) : Prop :=
  0 < width d /\ width d `mod` 8 = 0 /\ 0 <= height d /\
  Z.of_nat (length (frame_buffer d)) = (width d * height d) `div` 8.

(** The byte of the mirror that holds pixel (px, py), and the pixel's bit
    in it: bit 7 is the leftmost pixel of the byte's group of eight. *)
Definition byte_index (w px py : Z) : Z := px `div` 8 + (py * w) `div` 8.
Definition bit_index (px : Z) : Z := 7 - px `mod` 8.
Definition mirror_byte (d : EPD4in2v2) (px py : Z) : Z :=
  default 0 (frame_buffer d !! Z.to_nat (byte_index (width d) px py)).
Definition mirror_bit (d : EPD4in2v2) (px py : Z) : bool :=
  Z.testbit (mirror_byte d px py) (bit_index px).

(** The body of the inner loop of [set_frame_buffer] for source pixel
    value [p] and target pixel (qx, qy). *)
Definition plot (qx idxj p : Z) : M unit :=
  let idiv := qx `div` 8 in
  let irem := qx `mod` 8 in
  let mask := Z.shiftr 0x80 irem in
  let idxi := idiv in
  if negb (p =? 0) then
    v ← fb_get (idxi + idxj);
    fb_set (idxi + idxj) (Z.lor v mask)
  else
    v ← fb_get (idxi + idxj);
    fb_set (idxi + idxj) (Z.land v (Z.lnot mask)).

(** The body of the inner loop of [frame_buffer_to_image]. *)
Definition probe (j idxj i : Z) (im : Image.t) : M Image.t :=
  let idiv := i `div` 8 in
  let irem := i `mod` 8 in
  let mask := Z.shiftr 0x80 irem in
  let idxi := idiv in
  v ← fb_get (idxi + idxj);
  mret (Image.store im i j (Z.land v mask)).

(** The machine with the BUSY line advanced to [busy]. *)
Definition set_busy (busy : list Z) (m : machine) : machine :=
  {| self := self m; hw := {| busy_line := busy; bring_up := bring_up (hw m) |} |}.

(** The BUSY line leaves the busy level (1) at some point. *)
Definition goes_idle (busy : list Z) : bool := existsb (fun v => negb (v =? 1)) busy.

(** What one wait reads off the line, and what it leaves of it. *)
Fixpoint polls (busy : list Z) : list event :=
  match busy with
  | [] => []
  | v :: rest => DigitalRead BUSY_PIN v :: (if v =? 1 then DelayMs 20 :: polls rest else [])
  end.

Fixpoint after_idle (busy : list Z) : list Z :=
  match busy with
  | [] => []
  | v :: rest => if v =? 1 then after_idle rest else rest
  end.

(** The board events of one [send_command] and of one [send_data]. *)
Definition command_events (c : Z) : list event :=
  [DigitalWrite DC_PIN GPIO.LOW; DigitalWrite CS_PIN GPIO.LOW; SpiTransfer [c];
   DigitalWrite CS_PIN GPIO.HIGH].

Definition data_events (ds : list Z) : list event :=
  [DigitalWrite DC_PIN GPIO.HIGH; DigitalWrite CS_PIN GPIO.LOW]
  ++ map (fun d => SpiTransfer [d]) ds ++ [DigitalWrite CS_PIN GPIO.HIGH].

(** What the display controller receives: every byte transferred while
    chip-select is low, as a command when the data/command line is low and
    as data when it is high. *)
Inductive frame : Type := Command (c : Z) | Data (d : Z).

Fixpoint controller_view (dc cs : Z) (evs : list event) : list frame :=
  match evs with
  | [] => []
  | DigitalWrite DC_PIN v :: rest => controller_view v cs rest
  | DigitalWrite CS_PIN v :: rest => controller_view dc v rest
  | SpiTransfer bytes :: rest =>
      (if cs =? GPIO.LOW
       then map (if dc =? GPIO.LOW then Command else Data) bytes
       else [])
      ++ controller_view dc cs rest
  | _ :: rest => controller_view dc cs rest
  end.

(** The register writes of the RAM window and counters, as the controller
    receives them. *)
Definition ram_window_frames : list frame :=
  [Command 0x44; Data 0x00; Data 0x31;
   Command 0x45; Data 0x00; Data 0x00; Data 0x2B; Data 0x01;
   Command 0x4E; Data 0x00;
   Command 0x4F; Data 0x00; Data 0x00].

(** The draw calls of [fill] on a panel of height [h]: the row each tile
    starts at and the tile's height. *)
Definition fill_tiles (h fillsize : Z) : list (Z * Z) :=
  map (fun i => (i * fillsize, fillsize)) (Py.range (h `div` fillsize))
  ++ (if negb (h `mod` fillsize =? 0)
      then [((h `div` fillsize) * fillsize, h `mod` fillsize)] else []).

(** A driver object on a board whose transport comes up (status 0) and
    whose BUSY pin will show the levels [busy]. *)
Definition on_board (d : EPD4in2v2) (busy : list Z) : machine :=
  {| self := d; hw := {| busy_line := busy; bring_up := 0 |} |}.

(** The machine around a freshly constructed driver object. *)
Definition power_on (busy : list Z) : machine := on_board __init__ busy.

(** The command bytes among what the controller receives. *)
Fixpoint commands_of (fs : list frame) : list Z :=
  match fs with
  | [] => []
  | Command c :: rest => c :: commands_of rest
  | Data _ :: rest => commands_of rest
  end.

(** Bytes per panel line, [ceil(width / 8)]. *)
Definition ceil8 (w : Z) : Z := (w + 7) `div` 8.

(** The machine once [init(partial)] has returned on a fresh object. *)
Definition ready (partial : bool) (busy : list Z) : machine :=
  on_board (with_mode partial false __init__) busy.

(** A method keeps the panel dimensions of the driver object. *)
Definition keeps_shape {A} (c : M A) : Prop :=
  forall m a m' o, c m = Done a m' o ->
    width (self m') = width (self m) /\ height (self m') = height (self m).

(** [set_setting(command, data)]. *)
Definition set_setting (command : Z) (data : payload) : M unit :=
  send_command command;;
  send_data data.

(** [set_resolution()].  The opcode [RESOLUTION_SETTING] comes from the
    constants table of the driver family
    (papertty/drivers/drivers_consts.py) and is taken as a parameter. *)
Definition set_resolution (RESOLUTION_SETTING : Z) : M unit :=
  w1 ← getattr width;
  w2 ← getattr width;
  h1 ← getattr height;
  h2 ← getattr height;
  set_setting RESOLUTION_SETTING
    (PList [Z.land (Z.shiftr w1 8) 0xff; Z.land w2 0xff;
            Z.land (Z.shiftr h1 8) 0xff; Z.land h2 0xff]).

(** A method leaves the driver object as it is. *)
Definition keeps_self {A} (c : M A) : Prop :=
  forall m a m' o, c m = Done a m' o -> self m' = self m.

(** Every element of the mirror is a byte. *)
Definition is_byte (v : Z) : bool := (0 <=? v) && (v <? 256).
Definition bytes_ok (d : EPD4in2v2) : bool := forallb is_byte (frame_buffer d).

(** A method keeps the mirror a list of bytes. *)
Definition keeps_bytes {A} (c : M A) : Prop :=
  forall m a m' o, bytes_ok (self m) = true -> c m = Done a m' o ->
    bytes_ok (self m') = true.

(** The bytes a method hands to [spi_transfer]. *)
Fixpoint spi_bytes (evs : list event) : list Z :=
  match evs with
  | [] => []
  | SpiTransfer bytes :: rest => bytes ++ spi_bytes rest
  | _ :: rest => spi_bytes rest
  end.

(** The rectangle a bitmap covers when merged at (x, y). *)
Definition in_rect (x y : Z) (image : Image.t) (px py : Z) : bool :=
  bool_decide (0 <= py - y < snd (Image.size image)) &&
  bool_decide (0 <= px - x < fst (Image.size image)).

(** The BUSY line never shows the busy level. *)
Definition never_busy (busy : list Z) : bool := forallb (fun v => negb (v =? 1)) busy.

(** What [display_partial] sends before the RAM write: border waveform,
    update control, border waveform again, RAM window and counters. *)
Definition partial_head : list event :=
  command_events 0x3C ++ data_events [0x80] ++ command_events 0x21
  ++ data_events [0x00] ++ data_events [0x00] ++ command_events 0x3C
  ++ data_events [0x80]
  ++ command_events 0x44 ++ data_events [0x00] ++ data_events [0x31]
  ++ command_events 0x45 ++ data_events [0x00] ++ data_events [0x00]
  ++ data_events [0x2B] ++ data_events [0x01]
  ++ command_events 0x4E ++ data_events [0x00]
  ++ command_events 0x4F ++ data_events [0x00] ++ data_events [0x00].

(* ===================================================================== *)
(** * Proofs *)

(* ===================================================================== *)
(** ** Running the monad *)

Lemma bind_run {A B} (c : M A) (f : A -> M B) (m : machine) :
  (c ≫= f) m =
  match c m with
  | Done a m1 o1 => prepend o1 (f a m1)
  | Raised e => Raised e
  | Polling => Polling
  end.
Proof. reflexivity. Qed.

Lemma bind_done {A B} (c : M A) (f : A -> M B) m a m1 o1 :
  c m = Done a m1 o1 -> (c ≫= f) m = prepend o1 (f a m1).
Proof. intros H. rewrite bind_run, H. reflexivity. Qed.

Lemma prepend_nil {A} (r : outcome A) : prepend [] r = r.
Proof. destruct r; reflexivity. Qed.

Lemma prepend_prepend {A} o1 o2 (r : outcome A) :
  prepend o1 (prepend o2 r) = prepend (o1 ++ o2) r.
Proof. destruct r; simpl; try reflexivity. now rewrite app_assoc. Qed.

Lemma size_ok_range sz :
  Image.size_ok sz = true <-> 0 <= fst sz < 2 ^ 31 /\ 0 <= snd sz < 2 ^ 31.
Proof.
  unfold Image.size_ok. rewrite !andb_true_iff, !Z.leb_le, !Z.ltb_lt. tauto.
Qed.

(** [Image.new] on a size it accepts. *)
Lemma new_ok sz color :
  Image.size_ok sz = true -> Image.new sz color = inr (Image.solid sz (Image.clip8 color)).
Proof.
  intros H. apply size_ok_range in H as [[? ?] [? ?]]. unfold Image.new.
  destruct (Z.ltb_spec (fst sz) 0); [lia|]. destruct (Z.ltb_spec (snd sz) 0); [lia|].
  destruct (Z.leb_spec (2 ^ 31) (fst sz)); [lia|].
  destruct (Z.leb_spec (2 ^ 31) (snd sz)); [lia|]. reflexivity.
Qed.

(* ===================================================================== *)
(** ** Masks and bits *)

Lemma mask_testbit r k :
  0 <= r < 8 -> 0 <= k -> Z.testbit (Z.shiftr 0x80 r) k = (k =? 7 - r).
Proof.
  intros Hr Hk. rewrite Z.shiftr_spec by lia.
  change 0x80 with (2 ^ 7). rewrite Z.pow2_bits_eqb by lia.
  destruct (Z.eqb_spec 7 (k + r)), (Z.eqb_spec k (7 - r)); lia || reflexivity.
Qed.

Lemma mask_nonneg r : 0 <= r < 8 -> 0 <= Z.shiftr 0x80 r.
Proof. intros _. apply Z.shiftr_nonneg. lia. Qed.

Lemma land_mask_eq0 v r :
  0 <= r < 8 -> (Z.land v (Z.shiftr 0x80 r) =? 0) = negb (Z.testbit v (7 - r)).
Proof.
  intros Hr. destruct (Z.testbit v (7 - r)) eqn:Hb; simpl.
  - apply Z.eqb_neq. intros H0.
    assert (Hc : Z.testbit (Z.land v (Z.shiftr 0x80 r)) (7 - r) = true).
    { rewrite Z.land_spec, Hb, mask_testbit by lia. now rewrite Z.eqb_refl. }
    rewrite H0, Z.bits_0 in Hc. discriminate.
  - apply Z.eqb_eq. apply Z.bits_inj'. intros k Hk.
    rewrite Z.land_spec, Z.bits_0, mask_testbit by lia.
    destruct (Z.eqb_spec k (7 - r)) as [->|]; [now rewrite Hb | apply andb_false_r].
Qed.

Lemma set_bit_testbit v r k :
  0 <= r < 8 -> 0 <= k ->
  Z.testbit (Z.lor v (Z.shiftr 0x80 r)) k = Z.testbit v k || (k =? 7 - r).
Proof. intros Hr Hk. now rewrite Z.lor_spec, mask_testbit. Qed.

Lemma clear_bit_testbit v r k :
  0 <= r < 8 -> 0 <= k ->
  Z.testbit (Z.land v (Z.lnot (Z.shiftr 0x80 r))) k = Z.testbit v k && negb (k =? 7 - r).
Proof. intros Hr Hk. now rewrite Z.land_spec, Z.lnot_spec, mask_testbit. Qed.

(* ===================================================================== *)
(** ** Addressing *)

Lemma row_offset w py : w `mod` 8 = 0 -> (py * w) `div` 8 = py * (w `div` 8).
Proof.
  intros Hw. rewrite (Z.div_mod w 8) at 1 by lia. rewrite Hw, Z.add_0_r.
  replace (py * (8 * (w `div` 8))) with (py * (w `div` 8) * 8) by ring.
  apply Z.div_mul. lia.
Qed.

Lemma byte_index_range w h px py :
  0 < w -> w `mod` 8 = 0 -> 0 <= px < w -> 0 <= py < h ->
  0 <= byte_index w px py < (w * h) `div` 8.
Proof.
  intros Hw H8 Hx Hy. unfold byte_index.
  rewrite row_offset by assumption.
  replace (w * h) with (h * w) by ring. rewrite row_offset by assumption.
  pose proof (Z.div_mod w 8 ltac:(lia)) as Hd. rewrite H8 in Hd.
  assert (0 <= px `div` 8 < w `div` 8).
  { split; [apply Z.div_pos; lia | apply Z.div_lt_upper_bound; lia]. }
  nia.
Qed.

Lemma byte_index_inj w px py qx qy :
  0 < w -> w `mod` 8 = 0 -> 0 <= px < w -> 0 <= qx < w ->
  byte_index w px py = byte_index w qx qy ->
  py = qy /\ px `div` 8 = qx `div` 8.
Proof.
  intros Hw H8 Hp Hq. unfold byte_index. rewrite !row_offset by assumption.
  pose proof (Z.div_mod w 8 ltac:(lia)) as Hd. rewrite H8 in Hd.
  assert (0 <= px `div` 8 < w `div` 8).
  { split; [apply Z.div_pos; lia | apply Z.div_lt_upper_bound; lia]. }
  assert (0 <= qx `div` 8 < w `div` 8).
  { split; [apply Z.div_pos; lia | apply Z.div_lt_upper_bound; lia]. }
  intros E. assert (py = qy) by nia. subst. split; [reflexivity | lia].
Qed.

Lemma same_byte_same_bit px qx :
  px `div` 8 = qx `div` 8 -> bit_index px = bit_index qx -> px = qx.
Proof.
  unfold bit_index. intros Hd Hm.
  rewrite (Z.div_mod px 8), (Z.div_mod qx 8) by lia. lia.
Qed.

(* ===================================================================== *)
(** ** One pixel of the merge *)

Lemma index_in_range (len : nat) k :
  0 <= k < Z.of_nat len -> Py.index len k = Some (Z.to_nat k).
Proof.
  intros Hk. unfold Py.index.
  destruct (Z.leb_spec 0 k), (Z.ltb_spec k (Z.of_nat len)); simpl; lia || reflexivity.
Qed.

Lemma wf_set_mirror fb m :
  wf (self m) -> length fb = length (frame_buffer (self m)) -> wf (self (set_mirror fb m)).
Proof. unfold wf. simpl. intros (? & ? & ? & ?) ->. auto. Qed.

Lemma fb_get_in_range m k :
  0 <= k < Z.of_nat (length (frame_buffer (self m))) ->
  fb_get k m = Done (default 0 (frame_buffer (self m) !! Z.to_nat k)) m [].
Proof.
  intros Hk. unfold fb_get. rewrite index_in_range by assumption.
  destruct (lookup_lt_is_Some_2 (frame_buffer (self m)) (Z.to_nat k)) as [v Hv]; [lia|].
  now rewrite Hv.
Qed.

Lemma fb_set_in_range m k v :
  0 <= k < Z.of_nat (length (frame_buffer (self m))) ->
  fb_set k v m = Done tt (set_mirror (<[Z.to_nat k := v]> (frame_buffer (self m))) m) [].
Proof. intros Hk. unfold fb_set. now rewrite index_in_range. Qed.

(** Writing one byte of the mirror changes the bits of that byte only. *)
Lemma mirror_bit_insert d qx qy v px py :
  wf d -> 0 <= qx < width d -> 0 <= qy < height d ->
  0 <= px < width d -> 0 <= py < height d ->
  mirror_bit (with_frame_buffer
     (<[Z.to_nat (byte_index (width d) qx qy) := v]> (frame_buffer d)) d) px py
  = if (py =? qy) && (px `div` 8 =? qx `div` 8) then Z.testbit v (bit_index px)
    else mirror_bit d px py.
Proof.
  intros (Hw & H8 & Hh & Hlen) Hqx Hqy Hpx Hpy.
  unfold mirror_bit, mirror_byte. simpl.
  pose proof (byte_index_range _ _ _ _ Hw H8 Hqx Hqy) as Rq.
  pose proof (byte_index_range _ _ _ _ Hw H8 Hpx Hpy) as Rp.
  destruct (decide (byte_index (width d) px py = byte_index (width d) qx qy))
    as [E|NE].
  - destruct (byte_index_inj _ _ _ _ _ Hw H8 Hpx Hqx E) as [-> Ed].
    rewrite Z.eqb_refl, Ed, Z.eqb_refl. simpl. rewrite E.
    rewrite list_lookup_insert_eq by lia. reflexivity.
  - rewrite list_lookup_insert_ne by lia.
    destruct (Z.eqb_spec py qy) as [->|]; [|reflexivity].
    destruct (Z.eqb_spec (px `div` 8) (qx `div` 8)) as [Ed|]; [|reflexivity].
    exfalso. apply NE. unfold byte_index. now rewrite Ed.
Qed.

Lemma plot_run m qx qy p :
  wf (self m) -> 0 <= qx < width (self m) -> 0 <= qy < height (self m) ->
  exists fb,
    plot qx ((qy * width (self m)) `div` 8) p m = Done tt (set_mirror fb m) [] /\
    length fb = length (frame_buffer (self m)) /\
    forall px py, 0 <= px < width (self m) -> 0 <= py < height (self m) ->
      mirror_bit (with_frame_buffer fb (self m)) px py
      = if (px =? qx) && (py =? qy) then negb (p =? 0) else mirror_bit (self m) px py.
Proof.
  intros Hwf Hqx Hqy.
  pose proof Hwf as (Hw & H8 & Hh & Hlen).
  pose proof (byte_index_range _ _ _ _ Hw H8 Hqx Hqy) as Rq.
  fold (byte_index (width (self m)) qx qy) in *.
  assert (Hr : 0 <= qx `mod` 8 < 8) by (apply Z.mod_pos_bound; lia).
  set (old := default 0 (frame_buffer (self m) !! Z.to_nat (byte_index (width (self m)) qx qy))).
  assert (Hbit : forall px, 0 <= bit_index px).
  { intros px. unfold bit_index. pose proof (Z.mod_pos_bound px 8). lia. }
  assert (Hsame : forall px py,
    0 <= px < width (self m) ->
    (py =? qy) && (px `div` 8 =? qx `div` 8) = true ->
    mirror_bit (self m) px py = Z.testbit old (bit_index px)).
  { intros px py Hpx Hc. apply andb_true_iff in Hc as [Hy Hd].
    apply Z.eqb_eq in Hy, Hd. subst py. unfold mirror_bit, mirror_byte, old, byte_index.
    now rewrite Hd. }
  assert (Hdiff : forall px, (bit_index px =? 7 - qx `mod` 8) = true ->
                             px `div` 8 = qx `div` 8 -> px = qx).
  { intros px Hb Hd. apply Z.eqb_eq in Hb. now apply same_byte_same_bit. }
  unfold plot. fold (byte_index (width (self m)) qx qy).
  destruct (Z.eqb_spec p 0) as [Hp|Hp]; simpl.
  - exists (<[Z.to_nat (byte_index (width (self m)) qx qy) :=
               Z.land old (Z.lnot (Z.shiftr 0x80 (qx `mod` 8)))]> (frame_buffer (self m))).
    split; [|split].
    + erewrite bind_done by (apply fb_get_in_range; lia).
      rewrite prepend_nil. apply fb_set_in_range. lia.
    + apply length_insert.
    + intros px py Hpx Hpy. rewrite mirror_bit_insert by assumption.
      rewrite clear_bit_testbit by auto.
      destruct ((py =? qy) && (px `div` 8 =? qx `div` 8)) eqn:Hc.
      * rewrite <- (Hsame px py Hpx Hc).
        apply andb_true_iff in Hc as [Hy Hd]. apply Z.eqb_eq in Hd. rewrite Hy.
        destruct (Z.eqb_spec px qx) as [->|Hne]; simpl.
        -- unfold bit_index. rewrite Z.eqb_refl. apply andb_false_r.
        -- destruct (bit_index px =? 7 - qx `mod` 8) eqn:Hb; [|apply andb_true_r].
           exfalso. apply Hne. now apply Hdiff.
      * destruct (Z.eqb_spec px qx) as [->|Hne]; simpl; [|reflexivity].
        rewrite Z.eqb_refl, andb_true_r in Hc. now rewrite Hc.
  - exists (<[Z.to_nat (byte_index (width (self m)) qx qy) :=
               Z.lor old (Z.shiftr 0x80 (qx `mod` 8))]> (frame_buffer (self m))).
    split; [|split].
    + erewrite bind_done by (apply fb_get_in_range; lia).
      rewrite prepend_nil. apply fb_set_in_range. lia.
    + apply length_insert.
    + intros px py Hpx Hpy. rewrite mirror_bit_insert by assumption.
      rewrite set_bit_testbit by auto.
      destruct ((py =? qy) && (px `div` 8 =? qx `div` 8)) eqn:Hc.
      * rewrite <- (Hsame px py Hpx Hc).
        apply andb_true_iff in Hc as [Hy Hd]. apply Z.eqb_eq in Hd. rewrite Hy.
        destruct (Z.eqb_spec px qx) as [->|Hne]; simpl.
        -- unfold bit_index. rewrite Z.eqb_refl. apply orb_true_r.
        -- destruct (bit_index px =? 7 - qx `mod` 8) eqn:Hb; [|apply orb_false_r].
           exfalso. apply Hne. now apply Hdiff.
      * destruct (Z.eqb_spec px qx) as [->|Hne]; simpl; [|reflexivity].
        rewrite Z.eqb_refl, andb_true_r in Hc. now rewrite Hc.
Qed.

(* ===================================================================== *)
(** ** The loops *)

Lemma for_each_nil {A} (body : A -> M unit) m : for_each [] body m = Done tt m [].
Proof. reflexivity. Qed.

Lemma for_each_cons {A} (x : A) l (body : A -> M unit) m :
  for_each (x :: l) body m = (body x;; for_each l body) m.
Proof.
  unfold for_each. simpl. rewrite !bind_run.
  destruct (body x m) as [[] m1 o1| |]; reflexivity.
Qed.

Lemma for_each_ext {A} l (f g : A -> M unit) m :
  (forall x m', f x m' = g x m') -> for_each l f m = for_each l g m.
Proof.
  intros E. revert m. induction l as [|x l IH]; intros m; [reflexivity|].
  rewrite !for_each_cons, !bind_run, E.
  destruct (g x m) as [[] m1 o1| |]; [|reflexivity..]. now rewrite IH.
Qed.

Lemma for_each_ext_in {A} l (f g : A -> M unit) m :
  (forall x m', x ∈ l -> f x m' = g x m') -> for_each l f m = for_each l g m.
Proof.
  revert m. induction l as [|x l IH]; intros m E; [reflexivity|].
  rewrite !for_each_cons, !bind_run, E by (now left).
  destruct (g x m) as [[] m1 o1| |]; [|reflexivity..].
  rewrite IH; [reflexivity|]. intros x' m' Hx'. apply E. now right.
Qed.

Lemma bool_decide_elem_cons (a i : Z) (l : list Z) :
  bool_decide (a ∈ i :: l) = (a =? i) || bool_decide (a ∈ l).
Proof.
  destruct (Z.eqb_spec a i) as [->|Hne]; simpl.
  - apply bool_decide_eq_true_2. now left.
  - apply bool_decide_ext. rewrite elem_of_cons. tauto.
Qed.

(** One row of the merge: the columns [cols] of source row [j] go to panel
    row [qy]. *)
Lemma merge_row_run (pixels : Z -> Z -> Z) x qy j w cols : forall m,
  wf (self m) -> w = width (self m) -> 0 <= qy < height (self m) ->
  (forall i, i ∈ cols -> 0 <= x + i < w) ->
  exists fb,
    for_each cols (fun i => plot (x + i) ((qy * w) `div` 8) (pixels i j)) m
      = Done tt (set_mirror fb m) [] /\
    length fb = length (frame_buffer (self m)) /\
    forall px py, 0 <= px < w -> 0 <= py < height (self m) ->
      mirror_bit (with_frame_buffer fb (self m)) px py
      = if (py =? qy) && bool_decide (px - x ∈ cols)
        then negb (pixels (px - x) j =? 0) else mirror_bit (self m) px py.
Proof.
  induction cols as [|i cols IH]; intros m Hwf Hw Hqy Hcols.
  - exists (frame_buffer (self m)). split; [|split].
    + rewrite for_each_nil. destruct m as [[] ?]; reflexivity.
    + reflexivity.
    + intros px py _ _. rewrite andb_false_r. destruct (self m); reflexivity.
  - subst w.
    destruct (plot_run m (x + i) qy (pixels i j) Hwf) as (fb1 & Hrun1 & Hlen1 & Hbits1);
      [apply Hcols; left | assumption |].
    destruct (IH (set_mirror fb1 m)) as (fb & Hrun & Hlen & Hbits).
    { now apply wf_set_mirror. }
    { reflexivity. }
    { assumption. }
    { intros i' Hi'. apply Hcols. now right. }
    exists fb. split; [|split].
    + rewrite for_each_cons. erewrite bind_done by exact Hrun1.
      rewrite prepend_nil. exact Hrun.
    + rewrite Hlen. exact Hlen1.
    + intros px py Hpx Hpy.
      transitivity (mirror_bit (with_frame_buffer fb (self (set_mirror fb1 m))) px py);
        [reflexivity|].
      rewrite (Hbits px py Hpx Hpy).
      change (self (set_mirror fb1 m)) with (with_frame_buffer fb1 (self m)).
      rewrite (Hbits1 px py Hpx Hpy).
      rewrite bool_decide_elem_cons.
      destruct (Z.eqb_spec py qy) as [->|Hy]; simpl; [|now rewrite andb_false_r].
      destruct (bool_decide (px - x ∈ cols)); [now rewrite orb_true_r|].
      rewrite orb_false_r, andb_true_r.
      destruct (Z.eqb_spec px (x + i)) as [->|Hne].
      * replace (x + i - x) with i by lia. now rewrite Z.eqb_refl.
      * destruct (Z.eqb_spec (px - x) i); [lia | reflexivity].
Qed.

(** All rows of the merge. *)
Lemma merge_rows_run (pixels : Z -> Z -> Z) x y cols rows : forall m,
  wf (self m) ->
  (forall i, i ∈ cols -> 0 <= x + i < width (self m)) ->
  (forall j, j ∈ rows -> 0 <= y + j < height (self m)) ->
  exists fb,
    for_each rows (fun j =>
      w ← getattr width;
      for_each cols (fun i => plot (x + i) (((y + j) * w) `div` 8) (pixels i j))) m
      = Done tt (set_mirror fb m) [] /\
    length fb = length (frame_buffer (self m)) /\
    forall px py, 0 <= px < width (self m) -> 0 <= py < height (self m) ->
      mirror_bit (with_frame_buffer fb (self m)) px py
      = if bool_decide (py - y ∈ rows) && bool_decide (px - x ∈ cols)
        then negb (pixels (px - x) (py - y) =? 0) else mirror_bit (self m) px py.
Proof.
  induction rows as [|j rows IH]; intros m Hwf Hcols Hrows.
  - exists (frame_buffer (self m)). split; [|split].
    + rewrite for_each_nil. destruct m as [[] ?]; reflexivity.
    + reflexivity.
    + intros px py _ _. simpl. destruct (self m); reflexivity.
  - destruct (merge_row_run pixels x (y + j) j (width (self m)) cols m Hwf eq_refl)
      as (fb1 & Hrun1 & Hlen1 & Hbits1); [apply Hrows; left | assumption |].
    destruct (IH (set_mirror fb1 m)) as (fb & Hrun & Hlen & Hbits).
    { now apply wf_set_mirror. }
    { assumption. }
    { intros j' Hj'. apply Hrows. now right. }
    exists fb. split; [|split].
    + rewrite for_each_cons. rewrite bind_run.
      change ((w ← getattr width;
               for_each cols (fun i => plot (x + i) (((y + j) * w) `div` 8) (pixels i j))) m)
        with (prepend []
               (for_each cols (fun i =>
                  plot (x + i) (((y + j) * width (self m)) `div` 8) (pixels i j)) m)).
      rewrite Hrun1. simpl. rewrite prepend_nil. exact Hrun.
    + rewrite Hlen. exact Hlen1.
    + intros px py Hpx Hpy.
      transitivity (mirror_bit (with_frame_buffer fb (self (set_mirror fb1 m))) px py);
        [reflexivity|].
      rewrite (Hbits px py Hpx Hpy).
      change (self (set_mirror fb1 m)) with (with_frame_buffer fb1 (self m)).
      rewrite (Hbits1 px py Hpx Hpy).
      destruct (bool_decide (px - x ∈ cols)) eqn:Hc;
        [|now rewrite !andb_false_r].
      rewrite !andb_true_r.
      rewrite bool_decide_elem_cons.
      destruct (Z.eqb_spec py (y + j)) as [->|Hy].
      * replace (y + j - y) with j by lia. rewrite Z.eqb_refl. simpl.
        destruct (bool_decide (j ∈ rows)); reflexivity.
      * destruct (Z.eqb_spec (py - y) j); [lia|]. simpl.
        destruct (bool_decide (py - y ∈ rows)); reflexivity.
Qed.

Lemma elem_of_range k n : k ∈ Py.range n <-> 0 <= k < n.
Proof. unfold Py.range. rewrite elem_of_seqZ. lia. Qed.

(** [set_frame_buffer] on a rectangle inside the panel: it returns, the
    board sees nothing, and every bit of the mirror is the source pixel
    inside the rectangle and what it was outside. *)
Lemma set_frame_buffer_run m x y image :
  wf (self m) ->
  0 <= x -> x + fst (Image.size image) <= width (self m) ->
  0 <= y -> y + snd (Image.size image) <= height (self m) ->
  exists fb,
    set_frame_buffer x y image m = Done tt (set_mirror fb m) [] /\
    length fb = length (frame_buffer (self m)) /\
    forall px py, 0 <= px < width (self m) -> 0 <= py < height (self m) ->
      mirror_bit (with_frame_buffer fb (self m)) px py
      = if bool_decide (0 <= py - y < snd (Image.size image)) &&
           bool_decide (0 <= px - x < fst (Image.size image))
        then Image.is_white (Image.load image (px - x) (py - y))
        else mirror_bit (self m) px py.
Proof.
  intros Hwf Hx Hxw Hy Hyh. unfold set_frame_buffer.
  destruct (Image.size image) as [imwidth imheight] eqn:Hsz. simpl in *.
  destruct (merge_rows_run (Image.load image) x y (Py.range imwidth) (Py.range imheight) m Hwf)
    as (fb & Hrun & Hlen & Hbits).
  { intros i Hi. apply elem_of_range in Hi. lia. }
  { intros j Hj. apply elem_of_range in Hj. lia. }
  exists fb. split; [exact Hrun | split; [exact Hlen |]].
  intros px py Hpx Hpy. rewrite (Hbits px py Hpx Hpy).
  rewrite (bool_decide_ext _ _ (elem_of_range (py - y) imheight)).
  rewrite (bool_decide_ext _ _ (elem_of_range (px - x) imwidth)).
  reflexivity.
Qed.

(* ===================================================================== *)
(** ** Reading the mirror back *)

Lemma probe_run m i j im :
  wf (self m) -> 0 <= i < width (self m) -> 0 <= j < height (self m) ->
  probe j ((j * width (self m)) `div` 8) i im m
  = Done (Image.store im i j
            (Z.land (mirror_byte (self m) i j) (Z.shiftr 0x80 (i `mod` 8)))) m [].
Proof.
  intros (Hw & H8 & Hh & Hlen) Hi Hj.
  pose proof (byte_index_range _ _ _ _ Hw H8 Hi Hj) as R.
  unfold probe. fold (byte_index (width (self m)) i j).
  erewrite bind_done by (apply fb_get_in_range; lia). reflexivity.
Qed.

Lemma for_in_cons {A S} (x : A) l (body : A -> S -> M S) acc m :
  for_in (x :: l) body acc m = (body x acc ≫= for_in l body) m.
Proof. reflexivity. Qed.

Lemma read_row_run j w cols : forall im m,
  wf (self m) -> w = width (self m) -> 0 <= j < height (self m) ->
  (forall i, i ∈ cols -> 0 <= i < w) ->
  exists im',
    for_in cols (probe j ((j * w) `div` 8)) im m = Done im' m [] /\
    Image.size im' = Image.size im /\
    forall i' j',
      Image.load im' i' j'
      = if (j' =? j) && bool_decide (i' ∈ cols)
        then Z.land (mirror_byte (self m) i' j) (Z.shiftr 0x80 (i' `mod` 8))
        else Image.load im i' j'.
Proof.
  induction cols as [|i cols IH]; intros im m Hwf Hw Hj Hcols.
  - exists im. split; [reflexivity | split; [reflexivity|]].
    intros i' j'. now rewrite andb_false_r.
  - subst w.
    destruct (IH (Image.store im i j
                    (Z.land (mirror_byte (self m) i j) (Z.shiftr 0x80 (i `mod` 8)))) m)
      as (im' & Hrun & Hsz & Hpix); try assumption; try reflexivity.
    { intros i' Hi'. apply Hcols. now right. }
    exists im'. split; [|split].
    + rewrite for_in_cons.
      erewrite bind_done by (apply probe_run; [assumption | apply Hcols; left | assumption]).
      rewrite prepend_nil. exact Hrun.
    + rewrite Hsz. reflexivity.
    + intros i' j'. rewrite Hpix, bool_decide_elem_cons. simpl.
      destruct (Z.eqb_spec j' j) as [->|Hne]; simpl.
      * destruct (bool_decide (i' ∈ cols)); [now rewrite orb_true_r|].
        rewrite orb_false_r. destruct (Z.eqb_spec i' i) as [->|]; reflexivity.
      * now rewrite andb_false_r.
Qed.

Lemma read_rows_run rows : forall im m,
  wf (self m) ->
  (forall j, j ∈ rows -> 0 <= j < height (self m)) ->
  exists im',
    for_in rows (fun j im =>
      w ← getattr width;
      let idxj := (j * w) `div` 8 in
      w ← getattr width;
      for_in (Py.range w) (probe j idxj) im) im m = Done im' m [] /\
    Image.size im' = Image.size im /\
    forall i' j',
      Image.load im' i' j'
      = if bool_decide (j' ∈ rows) && bool_decide (i' ∈ Py.range (width (self m)))
        then Z.land (mirror_byte (self m) i' j') (Z.shiftr 0x80 (i' `mod` 8))
        else Image.load im i' j'.
Proof.
  induction rows as [|j rows IH]; intros im m Hwf Hrows.
  - exists im. split; [reflexivity | split; [reflexivity|]]. reflexivity.
  - destruct (read_row_run j (width (self m)) (Py.range (width (self m))) im m Hwf eq_refl)
      as (im1 & Hrun1 & Hsz1 & Hpix1); [apply Hrows; left | |].
    { intros i Hi. now apply elem_of_range in Hi. }
    destruct (IH im1 m Hwf) as (im' & Hrun & Hsz & Hpix).
    { intros j' Hj'. apply Hrows. now right. }
    exists im'. split; [|split].
    + rewrite for_in_cons, bind_run.
      match type of Hrun1 with ?c = _ =>
        match goal with |- match ?d with _ => _ end = _ =>
          change d with (prepend [] (prepend [] c)) end end.
      rewrite Hrun1. simpl. rewrite prepend_nil. exact Hrun.
    + now rewrite Hsz.
    + intros i' j'. rewrite Hpix, Hpix1, bool_decide_elem_cons.
      destruct (bool_decide (i' ∈ Py.range (width (self m)))); [|now rewrite !andb_false_r].
      rewrite !andb_true_r.
      destruct (Z.eqb_spec j' j) as [->|Hne]; simpl.
      * destruct (bool_decide (j ∈ rows)); reflexivity.
      * reflexivity.
Qed.

(** [frame_buffer_to_image]: it returns an image of the panel's size, leaves
    the machine as it is, and pixel (i, j) holds the mirror byte of the
    pixel masked with [0x80 >> (i % 8)]. *)
Lemma frame_buffer_to_image_run m :
  wf (self m) ->
  Image.size_ok (width (self m), height (self m)) = true ->
  exists im,
    frame_buffer_to_image m = Done im m [] /\
    Image.size im = (width (self m), height (self m)) /\
    forall i j, 0 <= i < width (self m) -> 0 <= j < height (self m) ->
      Image.load im i j
      = Z.land (mirror_byte (self m) i j) (Z.shiftr 0x80 (i `mod` 8)).
Proof.
  intros Hwf Hok.
  destruct (read_rows_run (Py.range (height (self m)))
              (Image.solid (width (self m), height (self m)) Image.white) m Hwf)
    as (im & Hrun & Hsz & Hpix).
  { intros j Hj. now apply elem_of_range in Hj. }
  exists im. split; [|split; [exact Hsz|]].
  { unfold frame_buffer_to_image.
    rewrite bind_run. change (getattr width m) with (Done (width (self m)) m []).
    cbv beta iota.
    rewrite bind_run. change (getattr height m) with (Done (height (self m)) m []).
    cbv beta iota.
    rewrite bind_run. unfold returned. rewrite (new_ok _ Image.white Hok).
    cbv beta iota. rewrite !prepend_nil. exact Hrun. }
  intros i j Hi Hj. rewrite Hpix.
  rewrite !bool_decide_eq_true_2 by (now apply elem_of_range). reflexivity.
Qed.

Lemma mask_pixel_white v i :
  Image.is_white (Z.land v (Z.shiftr 0x80 (i `mod` 8))) = Z.testbit v (bit_index i).
Proof.
  unfold Image.is_white, bit_index.
  rewrite land_mask_eq0 by (apply Z.mod_pos_bound; lia). apply negb_involutive.
Qed.

(* ===================================================================== *)
(** ** Framing on the bus *)

Lemma getattr_run {A} (f : EPD4in2v2 -> A) m : getattr f m = Done (f (self m)) m [].
Proof. reflexivity. Qed.

Lemma send_command_run c m : send_command c m = Done tt m (command_events c).
Proof. reflexivity. Qed.

Lemma send_data_int_run d m : send_data (PInt d) m = Done tt m (data_events [d]).
Proof. reflexivity. Qed.

Lemma spi_each_run ds m :
  for_each ds (fun d => spi_transfer [d]) m = Done tt m (map (fun d => SpiTransfer [d]) ds).
Proof.
  induction ds as [|d ds IH]; [reflexivity|].
  rewrite for_each_cons, bind_run. change (spi_transfer [d] m) with (Done tt m [SpiTransfer [d]]).
  cbv beta iota. rewrite IH. reflexivity.
Qed.

Lemma send_data_list_run ds m : send_data (PList ds) m = Done tt m (data_events ds).
Proof.
  unfold send_data. rewrite bind_run. change (digital_write DC_PIN GPIO.HIGH m)
    with (Done tt m [DigitalWrite DC_PIN GPIO.HIGH]). cbv beta iota.
  rewrite bind_run. change (digital_write CS_PIN GPIO.LOW m)
    with (Done tt m [DigitalWrite CS_PIN GPIO.LOW]). cbv beta iota.
  rewrite bind_run, spi_each_run. cbv beta iota.
  change (digital_write CS_PIN GPIO.HIGH m) with (Done tt m [DigitalWrite CS_PIN GPIO.HIGH]).
  reflexivity.
Qed.

Lemma wait_loop_run : forall busy turns m,
  busy_line (hw m) = busy -> (length busy < turns)%nat -> goes_idle busy = true ->
  wait_loop turns m = Done tt (set_busy (after_idle busy) m) (polls busy).
Proof.
  induction busy as [|v rest IH]; intros turns m Hb Hlen Hidle; [discriminate|].
  destruct turns as [|turns]; [simpl in Hlen; lia|].
  simpl wait_loop. rewrite bind_run. unfold digital_read. rewrite Hb.
  cbv beta iota. simpl in Hidle |- *.
  destruct (Z.eqb_spec v 1) as [->|Hv]; simpl in Hidle |- *.
  - rewrite bind_run. change (delay_ms 20 ?m) with (Done tt m [DelayMs 20]).
    cbv beta iota.
    change (wait_loop turns _) with (wait_loop turns (set_busy rest m)).
    rewrite (IH turns (set_busy rest m) eq_refl) by (simpl in Hlen; lia || assumption).
    reflexivity.
  - reflexivity.
Qed.

Lemma wait_until_idle_run m :
  goes_idle (busy_line (hw m)) = true ->
  wait_until_idle m
  = Done tt (set_busy (after_idle (busy_line (hw m))) m) (polls (busy_line (hw m))).
Proof. intros H. unfold wait_until_idle. apply wait_loop_run; [reflexivity | lia | exact H]. Qed.

Lemma wait_loop_stuck : forall busy turns m,
  busy_line (hw m) = busy -> goes_idle busy = false -> wait_loop turns m = Polling.
Proof.
  induction busy as [|v rest IH]; intros turns m Hb Hidle.
  - destruct turns; [reflexivity|]. simpl. rewrite bind_run. unfold digital_read.
    now rewrite Hb.
  - destruct turns as [|turns]; [reflexivity|].
    simpl wait_loop. rewrite bind_run. unfold digital_read. rewrite Hb.
    cbv beta iota. simpl in Hidle |- *.
    destruct (Z.eqb_spec v 1) as [->|Hv]; simpl in Hidle; [|discriminate].
    rewrite bind_run. change (delay_ms 20 ?m) with (Done tt m [DelayMs 20]).
    cbv beta iota. change (wait_loop turns _) with (wait_loop turns (set_busy rest m)).
    now rewrite (IH turns (set_busy rest m) eq_refl).
Qed.

(** A wait ends on a read that shows the line idle. *)
Lemma polls_end_idle busy :
  goes_idle busy = true ->
  exists pre v, polls busy = pre ++ [DigitalRead BUSY_PIN v] /\ v <> 1.
Proof.
  induction busy as [|v rest IH]; [discriminate|]. simpl.
  destruct (Z.eqb_spec v 1) as [->|Hv]; simpl; intros H.
  - destruct (IH H) as (pre & v & -> & Hv).
    exists (DigitalRead BUSY_PIN 1 :: DelayMs 20 :: pre), v. now split.
  - exists [], v. now split.
Qed.

Lemma view_command dc cs c rest :
  controller_view dc cs (command_events c ++ rest)
  = Command c :: controller_view GPIO.LOW GPIO.HIGH rest.
Proof. reflexivity. Qed.

Lemma view_data_bytes ds rest :
  controller_view GPIO.HIGH GPIO.LOW (map (fun d => SpiTransfer [d]) ds ++ rest)
  = map Data ds ++ controller_view GPIO.HIGH GPIO.LOW rest.
Proof. induction ds as [|d ds IH]; [reflexivity|]. simpl. now rewrite IH. Qed.

Lemma view_data dc cs ds rest :
  controller_view dc cs (data_events ds ++ rest)
  = map Data ds ++ controller_view GPIO.HIGH GPIO.HIGH rest.
Proof.
  unfold data_events. rewrite <- !app_assoc.
  change (controller_view dc cs ([DigitalWrite DC_PIN GPIO.HIGH; DigitalWrite CS_PIN GPIO.LOW]
            ++ ?l)) with (controller_view GPIO.HIGH GPIO.LOW l).
  now rewrite view_data_bytes.
Qed.

Lemma view_polls dc cs busy rest :
  controller_view dc cs (polls busy ++ rest) = controller_view dc cs rest.
Proof.
  induction busy as [|v busy IH]; [reflexivity|]. simpl.
  destruct (v =? 1); [exact IH | reflexivity].
Qed.

Lemma view_polls_end dc cs busy : controller_view dc cs (polls busy) = [].
Proof. rewrite <- (app_nil_r (polls busy)). apply view_polls. Qed.

(** One step of a method body: run the first call, keep its events. *)
Ltac run_step :=
  rewrite bind_run;
  first [ rewrite send_command_run | rewrite send_data_int_run
        | rewrite send_data_list_run | rewrite getattr_run ];
  cbv beta iota.

Lemma turn_on_display_run m :
  goes_idle (busy_line (hw m)) = true ->
  turn_on_display m
  = Done tt (set_busy (after_idle (busy_line (hw m))) m)
      (command_events 0x22 ++ data_events [0xF7] ++ command_events 0x20
       ++ polls (busy_line (hw m))).
Proof.
  intros H. unfold turn_on_display. do 3 run_step.
  rewrite (wait_until_idle_run m H). reflexivity.
Qed.

Lemma turn_on_display_partial_run m :
  goes_idle (busy_line (hw m)) = true ->
  turn_on_display_partial m
  = Done tt (set_busy (after_idle (busy_line (hw m))) m)
      (command_events 0x22 ++ data_events [0xFF] ++ command_events 0x20
       ++ polls (busy_line (hw m))).
Proof.
  intros H. unfold turn_on_display_partial. do 3 run_step.
  rewrite (wait_until_idle_run m H). reflexivity.
Qed.

Lemma display_full_run m :
  goes_idle (busy_line (hw m)) = true ->
  display_full m
  = Done tt (set_busy (after_idle (busy_line (hw m))) m)
      ((command_events 0x24 ++ data_events (frame_buffer (self m))
        ++ command_events 0x26 ++ data_events (frame_buffer (self m))
        ++ command_events 0x22 ++ data_events [0xF7] ++ command_events 0x20)
       ++ polls (busy_line (hw m))).
Proof.
  intros H. unfold display_full. do 6 run_step.
  rewrite (turn_on_display_run m H). cbn [prepend].
  repeat rewrite <- app_assoc. reflexivity.
Qed.

Lemma display_partial_run m :
  goes_idle (busy_line (hw m)) = true ->
  exists head,
    display_partial m
    = Done tt (set_busy (after_idle (busy_line (hw m))) m)
        ((head ++ command_events 0x24 ++ data_events (frame_buffer (self m))
          ++ command_events 0x22 ++ data_events [0xFF] ++ command_events 0x20)
         ++ polls (busy_line (hw m))) /\
    forall dc cs rest,
      controller_view dc cs (head ++ rest)
      = [Command 0x3C; Data 0x80; Command 0x21; Data 0x00; Data 0x00; Command 0x3C; Data 0x80]
        ++ ram_window_frames ++ controller_view GPIO.HIGH GPIO.HIGH rest.
Proof.
  intros H.
  exists (command_events 0x3C ++ data_events [0x80] ++ command_events 0x21
          ++ data_events [0x00] ++ data_events [0x00] ++ command_events 0x3C
          ++ data_events [0x80]
          ++ command_events 0x44 ++ data_events [0x00] ++ data_events [0x31]
          ++ command_events 0x45 ++ data_events [0x00] ++ data_events [0x00]
          ++ data_events [0x2B] ++ data_events [0x01]
          ++ command_events 0x4E ++ data_events [0x00]
          ++ command_events 0x4F ++ data_events [0x00] ++ data_events [0x00]).
  split.
  - unfold display_partial. do 23 run_step.
    rewrite (turn_on_display_partial_run m H). cbn [prepend].
    repeat rewrite <- app_assoc. reflexivity.
  - intros dc cs rest. reflexivity.
Qed.

(* ===================================================================== *)
(** ** The frame buffer: merge and read-back *)

(** The shape of a concrete driver object, by evaluation. *)
Ltac shape_by_compute := unfold wf; split; [|split; [|split]]; vm_compute; congruence.

Lemma wf_init : wf __init__.
Proof. shape_by_compute. Qed.

(** C1 (round trip).  For a rectangle inside the panel and any mirror
    contents before, [set_frame_buffer(x, y, B)] followed by
    [frame_buffer_to_image()] returns an image of the panel's size whose
    pixels over the rectangle are black exactly where those of [B] are.
    The panel's size is one [Image.new] accepts (both sides below 2^31), as
    the read-back builds an image of that size. *)
Theorem merge_toBitmap_round_trip m x y B :
  wf (self m) ->
  Image.size_ok (width (self m), height (self m)) = true ->
  0 <= x -> x + fst (Image.size B) <= width (self m) ->
  0 <= y -> y + snd (Image.size B) <= height (self m) ->
  exists m' im,
    set_frame_buffer x y B m = Done tt m' [] /\
    frame_buffer_to_image m' = Done im m' [] /\
    Image.size im = (width (self m), height (self m)) /\
    forall i j, 0 <= i < fst (Image.size B) -> 0 <= j < snd (Image.size B) ->
      Image.is_black (Image.load im (x + i) (y + j)) = Image.is_black (Image.load B i j).
Proof.
  intros Hwf Hok Hx Hxw Hy Hyh.
  destruct (set_frame_buffer_run m x y B Hwf Hx Hxw Hy Hyh) as (fb & Hset & Hlen & Hbits).
  assert (Hwf' : wf (self (set_mirror fb m))) by now apply wf_set_mirror.
  destruct (frame_buffer_to_image_run _ Hwf' Hok) as (im & Hget & Hsz & Hpix).
  exists (set_mirror fb m), im. repeat split; try assumption.
  intros i j Hi Hj. simpl in Hpix.
  rewrite Hpix by lia.
  assert (Hw : Image.is_white
                 (Z.land (mirror_byte (with_frame_buffer fb (self m)) (x + i) (y + j))
                         (Z.shiftr 0x80 ((x + i) `mod` 8)))
               = Image.is_white (Image.load B i j)).
  { rewrite mask_pixel_white.
    change (Z.testbit _ _) with (mirror_bit (with_frame_buffer fb (self m)) (x + i) (y + j)).
    rewrite Hbits by lia.
    rewrite !bool_decide_eq_true_2 by lia. simpl.
    now replace (x + i - x) with i by lia; replace (y + j - y) with j by lia. }
  unfold Image.is_white in Hw. unfold Image.is_black.
  apply (f_equal negb) in Hw. now rewrite !negb_involutive in Hw.
Qed.

Lemma merge_toBitmap_round_trip_witness :
  wf (self (power_on [])) /\
  Image.size_ok (400, 300) = true /\
  exists m' im,
    set_frame_buffer 3 1 (Image.solid (2, 1) 0) (power_on []) = Done tt m' [] /\
    frame_buffer_to_image m' = Done im m' [] /\
    Image.size im = (400, 300) /\
    forall i j, 0 <= i < 2 -> 0 <= j < 1 ->
      Image.is_black (Image.load im (3 + i) (1 + j)) = true.
Proof.
  split; [|split].
  - shape_by_compute.
  - reflexivity.
  - apply (merge_toBitmap_round_trip (power_on []) 3 1 (Image.solid (2, 1) 0)).
    + shape_by_compute.
    + reflexivity.
    + lia.
    + vm_compute; congruence.
    + lia.
    + vm_compute; congruence.
Defined.

(** What the read-back does with a bit.  [frame_buffer_to_image()] returns
    an image of the panel's size in which pixel (i, j) is white exactly when bit
    [7 - i mod 8] of mirror byte [i div 8 + (j * width) div 8] is set, and
    black exactly when that bit is clear: the most significant bit of a
    byte is the leftmost pixel of its group of eight. *)
Lemma toBitmap_white_iff_bit_set m :
  wf (self m) ->
  Image.size_ok (width (self m), height (self m)) = true ->
  exists im,
    frame_buffer_to_image m = Done im m [] /\
    Image.size im = (width (self m), height (self m)) /\
    forall i j, 0 <= i < width (self m) -> 0 <= j < height (self m) ->
      Image.is_white (Image.load im i j)
        = Z.testbit (mirror_byte (self m) i j) (7 - i `mod` 8) /\
      Image.is_black (Image.load im i j)
        = negb (Z.testbit (mirror_byte (self m) i j) (7 - i `mod` 8)).
Proof.
  intros Hwf Hok.
  destruct (frame_buffer_to_image_run m Hwf Hok) as (im & Hget & Hsz & Hpix).
  exists im. repeat split; try assumption.
  - rewrite Hpix by assumption. apply mask_pixel_white.
  - rewrite Hpix by assumption.
    pose proof (mask_pixel_white (mirror_byte (self m) i j) i) as Hw.
    unfold Image.is_white, bit_index in Hw. unfold Image.is_black.
    rewrite <- Hw. now rewrite negb_involutive.
Qed.

Lemma toBitmap_white_iff_bit_set_witness :
  wf (self (power_on [])) /\
  Image.size_ok (400, 300) = true /\
  exists im,
    frame_buffer_to_image (power_on []) = Done im (power_on []) [] /\
    Image.size im = (400, 300) /\
    forall i j, 0 <= i < 400 -> 0 <= j < 300 ->
      Image.is_white (Image.load im i j)
        = Z.testbit (mirror_byte (self (power_on [])) i j) (7 - i `mod` 8) /\
      Image.is_black (Image.load im i j)
        = negb (Z.testbit (mirror_byte (self (power_on [])) i j) (7 - i `mod` 8)).
Proof.
  split; [|split].
  - shape_by_compute.
  - reflexivity.
  - apply (toBitmap_white_iff_bit_set (power_on [])).
    + shape_by_compute.
    + reflexivity.
Defined.

(** C2, on the code.  The header comment of the driver says of the mirror
    that each bit is one pixel, 0 is white, 1 is black; the read-back does the
    opposite.  On a fresh driver the top-left bit of the mirror is set (the
    byte is 0xff), and the pixel [frame_buffer_to_image()] returns there is
    128, which is white and not black. *)
Lemma toBitmap_set_bit_not_black :
  exists im,
    frame_buffer_to_image (power_on []) = Done im (power_on []) [] /\
    Z.testbit (mirror_byte (self (power_on [])) 0 0) 7 = true /\
    Image.load im 0 0 = 128 /\
    Image.is_white (Image.load im 0 0) = true /\
    Image.is_black (Image.load im 0 0) = false.
Proof.
  destruct (frame_buffer_to_image_run (power_on []) wf_init eq_refl)
    as (im & Hget & _ & Hpix).
  exists im. split; [exact Hget | split; [reflexivity|]].
  rewrite (Hpix 0 0) by (vm_compute; split; congruence).
  repeat split; reflexivity.
Qed.

(* ===================================================================== *)
(** ** The refresh sequences *)

Lemma commands_of_app a b : commands_of (a ++ b) = commands_of a ++ commands_of b.
Proof.
  induction a as [|[c|d] a IH]; simpl; [reflexivity | now rewrite IH | exact IH].
Qed.

Lemma commands_of_data ds : commands_of (map Data ds) = [].
Proof. induction ds as [|d ds IH]; [reflexivity | exact IH]. Qed.

Ltac read_commands :=
  repeat first
    [ rewrite commands_of_app | rewrite commands_of_data
    | progress (cbn [commands_of app map ram_window_frames]) ].

Lemma linewidth_ceil w :
  0 <= w ->
  (if w `mod` 8 =? 0 then Py.int_truediv w 8 else Py.int_truediv w 8 + 1) = ceil8 w.
Proof.
  intros Hw. unfold Py.int_truediv, ceil8. rewrite Z.quot_div_nonneg by lia.
  pose proof (Z.div_mod w 8 ltac:(lia)) as Hd.
  pose proof (Z.mod_pos_bound w 8 ltac:(lia)) as Hm.
  destruct (Z.eqb_spec (w `mod` 8) 0) as [E|NE].
  - apply Z.div_unique with 7; lia.
  - apply Z.div_unique with (w `mod` 8 - 1); lia.
Qed.

Lemma clear_run m :
  0 <= width (self m) ->
  goes_idle (busy_line (hw m)) = true ->
  clear m
  = Done tt (set_busy (after_idle (busy_line (hw m))) m)
      ((command_events 0x24
        ++ data_events (Py.list_mul 0xff (height (self m) * ceil8 (width (self m))))
        ++ command_events 0x26
        ++ data_events (Py.list_mul 0xff (height (self m) * ceil8 (width (self m))))
        ++ command_events 0x22 ++ data_events [0xF7] ++ command_events 0x20)
       ++ polls (busy_line (hw m))).
Proof.
  intros Hw H. unfold clear. do 2 run_step. rewrite (linewidth_ceil _ Hw).
  do 4 run_step. rewrite (turn_on_display_run m H). cbn [prepend].
  repeat rewrite <- app_assoc. reflexivity.
Qed.

Lemma view_polls_tail busy : forall evs dc cs,
  controller_view dc cs (evs ++ polls busy) = controller_view dc cs evs.
Proof.
  induction evs as [|e evs IH]; intros dc cs.
  - apply view_polls_end.
  - destruct e as [st|[] lv|p lv|bytes|ms]; simpl; rewrite ?IH; reflexivity.
Qed.

Lemma clear_frames m :
  0 <= width (self m) ->
  goes_idle (busy_line (hw m)) = true ->
  exists body,
    clear m = Done tt (set_busy (after_idle (busy_line (hw m))) m)
                (body ++ polls (busy_line (hw m))) /\
    forall dc cs,
      controller_view dc cs body
      = Command 0x24
        :: map Data (Py.list_mul 0xff (height (self m) * ceil8 (width (self m))))
        ++ Command 0x26
        :: map Data (Py.list_mul 0xff (height (self m) * ceil8 (width (self m))))
        ++ [Command 0x22; Data 0xF7; Command 0x20].
Proof.
  intros Hw H. eexists. split; [apply (clear_run m Hw H)|].
  intros dc cs. repeat (rewrite view_command || rewrite view_data). reflexivity.
Qed.

Lemma display_full_frames m :
  goes_idle (busy_line (hw m)) = true ->
  exists body,
    display_full m = Done tt (set_busy (after_idle (busy_line (hw m))) m)
                       (body ++ polls (busy_line (hw m))) /\
    forall dc cs,
      controller_view dc cs body
      = Command 0x24 :: map Data (frame_buffer (self m))
        ++ Command 0x26 :: map Data (frame_buffer (self m))
        ++ [Command 0x22; Data 0xF7; Command 0x20].
Proof.
  intros H. eexists. split; [apply (display_full_run m H)|].
  intros dc cs. repeat (rewrite view_command || rewrite view_data). reflexivity.
Qed.

Lemma display_partial_frames m :
  goes_idle (busy_line (hw m)) = true ->
  exists body,
    display_partial m = Done tt (set_busy (after_idle (busy_line (hw m))) m)
                          (body ++ polls (busy_line (hw m))) /\
    forall dc cs,
      controller_view dc cs body
      = [Command 0x3C; Data 0x80; Command 0x21; Data 0x00; Data 0x00;
         Command 0x3C; Data 0x80]
        ++ ram_window_frames
        ++ Command 0x24 :: map Data (frame_buffer (self m))
        ++ [Command 0x22; Data 0xFF; Command 0x20].
Proof.
  intros H. destruct (display_partial_run m H) as (head & Hrun & Hhead).
  eexists. split; [exact Hrun|].
  intros dc cs. rewrite Hhead.
  repeat (rewrite view_command || rewrite view_data). reflexivity.
Qed.

(** C10.  [clear()] returns with the driver object, and so the mirror, as
    it was; the controller receives [height * ceil(width / 8)] bytes 0xff
    after command 0x24, the same after command 0x26, and the full-update
    activation; only a freshly constructed object has a mirror of all
    0xff. *)
Theorem clear_leaves_mirror m :
  0 <= width (self m) ->
  goes_idle (busy_line (hw m)) = true ->
  exists m' body,
    clear m = Done tt m' (body ++ polls (busy_line (hw m))) /\
    self m' = self m /\
    frame_buffer (self m') = frame_buffer (self m) /\
    (forall dc cs,
       controller_view dc cs body
       = Command 0x24
         :: map Data (Py.list_mul 0xff (height (self m) * ceil8 (width (self m))))
         ++ Command 0x26
         :: map Data (Py.list_mul 0xff (height (self m) * ceil8 (width (self m))))
         ++ [Command 0x22; Data 0xF7; Command 0x20]) /\
    frame_buffer __init__ = Py.list_mul 0xff 15000.
Proof.
  intros Hw H. destruct (clear_frames m Hw H) as (body & Hrun & Hview).
  eexists _, body. split; [exact Hrun|]. repeat split. exact Hview.
Qed.

Lemma clear_leaves_mirror_witness :
  0 <= width (self (ready true [1; 0])) /\
  goes_idle (busy_line (hw (ready true [1; 0]))) = true /\
  exists m' body,
    clear (ready true [1; 0]) = Done tt m' (body ++ polls [1; 0]) /\
    self m' = self (ready true [1; 0]) /\
    frame_buffer (self m') = frame_buffer (self (ready true [1; 0])) /\
    (forall dc cs,
       controller_view dc cs body
       = Command 0x24
         :: map Data (Py.list_mul 0xff (300 * ceil8 400))
         ++ Command 0x26
         :: map Data (Py.list_mul 0xff (300 * ceil8 400))
         ++ [Command 0x22; Data 0xF7; Command 0x20]) /\
    frame_buffer __init__ = Py.list_mul 0xff 15000.
Proof.
  split; [vm_compute; congruence | split; [reflexivity|]].
  apply (clear_leaves_mirror (ready true [1; 0])); [vm_compute; congruence | reflexivity].
Defined.

Lemma get_partial_refresh_truth m :
  get_partial_refresh m = Done (Py.truth (partial_refresh (self m))) m [].
Proof. reflexivity. Qed.

(** [draw] on a rectangle inside the panel is the merge followed by the
    refresh the truth value of [partial_refresh] selects, run on the merged
    mirror; the attribute the constructor left at [None] selects
    [display_full]. *)
Lemma draw_merge_then_refresh m x y image :
  wf (self m) ->
  0 <= x -> x + fst (Image.size image) <= width (self m) ->
  0 <= y -> y + snd (Image.size image) <= height (self m) ->
  exists fb,
    set_frame_buffer x y image m = Done tt (set_mirror fb m) [] /\
    length fb = length (frame_buffer (self m)) /\
    (forall px py, 0 <= px < width (self m) -> 0 <= py < height (self m) ->
      mirror_bit (with_frame_buffer fb (self m)) px py
      = if bool_decide (0 <= py - y < snd (Image.size image)) &&
           bool_decide (0 <= px - x < fst (Image.size image))
        then Image.is_white (Image.load image (px - x) (py - y))
        else mirror_bit (self m) px py) /\
    draw x y image m
    = if Py.truth (partial_refresh (self m))
      then display_partial (set_mirror fb m) else display_full (set_mirror fb m).
Proof.
  intros Hwf Hx Hxw Hy Hyh.
  destruct (set_frame_buffer_run m x y image Hwf Hx Hxw Hy Hyh) as (fb & Hset & Hlen & Hbits).
  exists fb. repeat split; try assumption.
  unfold draw. rewrite bind_run, Hset. cbv beta iota. rewrite prepend_nil.
  rewrite bind_run, get_partial_refresh_truth.
  cbv beta iota. rewrite prepend_nil.
  change (partial_refresh (self (set_mirror fb m))) with (partial_refresh (self m)).
  destruct (Py.truth (partial_refresh (self m))); reflexivity.
Qed.

(** The same for an initialised driver, whose mode flag is [True] or
    [False]. *)
Lemma draw_run m x y image p :
  wf (self m) ->
  0 <= x -> x + fst (Image.size image) <= width (self m) ->
  0 <= y -> y + snd (Image.size image) <= height (self m) ->
  partial_refresh (self m) = Some p ->
  exists fb,
    set_frame_buffer x y image m = Done tt (set_mirror fb m) [] /\
    length fb = length (frame_buffer (self m)) /\
    (forall px py, 0 <= px < width (self m) -> 0 <= py < height (self m) ->
      mirror_bit (with_frame_buffer fb (self m)) px py
      = if bool_decide (0 <= py - y < snd (Image.size image)) &&
           bool_decide (0 <= px - x < fst (Image.size image))
        then Image.is_white (Image.load image (px - x) (py - y))
        else mirror_bit (self m) px py) /\
    draw x y image m
    = if p then display_partial (set_mirror fb m) else display_full (set_mirror fb m).
Proof.
  intros Hwf Hx Hxw Hy Hyh Hp.
  destruct (draw_merge_then_refresh m x y image Hwf Hx Hxw Hy Hyh)
    as (fb & Hset & Hlen & Hbits & Hdraw).
  exists fb. repeat split; try assumption.
  rewrite Hdraw, Hp. reflexivity.
Qed.

(** A black pixel merged at the origin is still there after [clear()]. *)
Lemma clear_keeps_drawn_pixel m busy1 busy2 :
  wf (self m) -> 0 < height (self m) ->
  Image.size_ok (width (self m), height (self m)) = true ->
  partial_refresh (self m) = Some false ->
  busy_line (hw m) = 0 :: 0 :: busy2 -> busy1 = 0 :: busy2 ->
  exists m1 o1 m2 o2 im,
    draw 0 0 (Image.solid (1, 1) 0) m = Done tt m1 o1 /\
    clear m1 = Done tt m2 o2 /\
    frame_buffer_to_image m2 = Done im m2 [] /\
    Image.size im = (width (self m), height (self m)) /\
    Image.is_black (Image.load im 0 0) = true.
Proof.
  intros Hwf Hh Hok Hp Hbusy ->. pose proof Hwf as (Hw & H8 & _ & _).
  assert (Hw1 : 1 <= width (self m)) by lia.
  destruct (draw_run m 0 0 (Image.solid (1, 1) 0) false Hwf) as (fb & _ & Hlen & Hbits & Hdraw);
    simpl; try lia; try assumption.
  assert (Hwf' : wf (self (set_busy busy2 (set_mirror fb m)))) by now apply wf_set_mirror.
  destruct (frame_buffer_to_image_run _ Hwf' Hok) as (im & Hget & Hsz & Hpix).
  eexists (set_busy (0 :: busy2) (set_mirror fb m)), _, (set_busy busy2 (set_mirror fb m)), _, im.
  split; [|split; [|split; [|split]]].
  - rewrite Hdraw, display_full_run by (simpl; now rewrite Hbusy).
    simpl busy_line. rewrite Hbusy. reflexivity.
  - now rewrite clear_run by (simpl; lia || reflexivity).
  - exact Hget.
  - exact Hsz.
  - simpl in Hpix. rewrite Hpix by lia.
    unfold Image.is_black. rewrite land_mask_eq0 by (vm_compute; split; congruence).
    change (Z.testbit _ _) with (mirror_bit (with_frame_buffer fb (self m)) 0 0).
    rewrite Hbits by lia. rewrite !bool_decide_eq_true_2 by (simpl; lia). reflexivity.
Qed.

(** C3, on the code.  On an initialised driver in full-refresh mode,
    [draw(0, 0, B)] with a black 1x1 bitmap [B], then [clear()], then
    [frame_buffer_to_image()]: the image returned has a black top-left
    pixel. *)
Theorem clear_toBitmap_not_white :
  exists m1 o1 m2 o2 im,
    draw 0 0 (Image.solid (1, 1) 0) (ready false [0; 0]) = Done tt m1 o1 /\
    clear m1 = Done tt m2 o2 /\
    frame_buffer_to_image m2 = Done im m2 [] /\
    Image.size im = (400, 300) /\
    Image.is_black (Image.load im 0 0) = true.
Proof.
  apply (clear_keeps_drawn_pixel (ready false [0; 0]) [0] []); try reflexivity.
  exact wf_init.
Qed.

(** C6.  [display_partial()] on a line that goes idle: the controller
    receives the border-waveform and update-control settings, the RAM
    window and counters, then command 0x24 with the mirror, then 0x22 with
    0xFF and 0x20; 0x24 is sent once and 0x26 never; after that the BUSY
    pin is polled until it reads idle. *)
Theorem display_partial_sequence m :
  goes_idle (busy_line (hw m)) = true ->
  exists m' body pre v,
    display_partial m = Done tt m' (body ++ polls (busy_line (hw m))) /\
    self m' = self m /\
    (forall dc cs,
       controller_view dc cs body
       = [Command 0x3C; Data 0x80; Command 0x21; Data 0x00; Data 0x00;
          Command 0x3C; Data 0x80]
         ++ ram_window_frames
         ++ Command 0x24 :: map Data (frame_buffer (self m))
         ++ [Command 0x22; Data 0xFF; Command 0x20]) /\
    (forall dc cs,
       commands_of (controller_view dc cs body)
       = [0x3C; 0x21; 0x3C; 0x44; 0x45; 0x4E; 0x4F; 0x24; 0x22; 0x20]) /\
    polls (busy_line (hw m)) = pre ++ [DigitalRead BUSY_PIN v] /\ v <> 1.
Proof.
  intros H. destruct (display_partial_frames m H) as (body & Hrun & Hview).
  destruct (polls_end_idle _ H) as (pre & v & Hpolls & Hv).
  eexists _, body, pre, v. split; [exact Hrun|].
  split; [reflexivity|]. split; [exact Hview|]. split; [|now split].
  intros dc cs. rewrite Hview. now read_commands.
Qed.

Lemma display_partial_sequence_witness :
  goes_idle (busy_line (hw (ready true [1; 0]))) = true /\
  exists m' body pre v,
    display_partial (ready true [1; 0]) = Done tt m' (body ++ polls [1; 0]) /\
    self m' = self (ready true [1; 0]) /\
    (forall dc cs,
       controller_view dc cs body
       = [Command 0x3C; Data 0x80; Command 0x21; Data 0x00; Data 0x00;
          Command 0x3C; Data 0x80]
         ++ ram_window_frames
         ++ Command 0x24 :: map Data (frame_buffer (self (ready true [1; 0])))
         ++ [Command 0x22; Data 0xFF; Command 0x20]) /\
    (forall dc cs,
       commands_of (controller_view dc cs body)
       = [0x3C; 0x21; 0x3C; 0x44; 0x45; 0x4E; 0x4F; 0x24; 0x22; 0x20]) /\
    polls [1; 0] = pre ++ [DigitalRead BUSY_PIN v] /\ v <> 1.
Proof.
  split; [reflexivity|].
  apply (display_partial_sequence (ready true [1; 0])). reflexivity.
Defined.

(** C7.  [display_full()] on a line that goes idle: the controller receives
    command 0x24 with the mirror, command 0x26 with the same bytes, then
    0x22 with 0xF7 and 0x20; after that the BUSY pin is polled until it
    reads idle. *)
Theorem display_full_sequence m :
  goes_idle (busy_line (hw m)) = true ->
  exists m' body pre v,
    display_full m = Done tt m' (body ++ polls (busy_line (hw m))) /\
    self m' = self m /\
    (forall dc cs,
       controller_view dc cs body
       = Command 0x24 :: map Data (frame_buffer (self m))
         ++ Command 0x26 :: map Data (frame_buffer (self m))
         ++ [Command 0x22; Data 0xF7; Command 0x20]) /\
    polls (busy_line (hw m)) = pre ++ [DigitalRead BUSY_PIN v] /\ v <> 1.
Proof.
  intros H. destruct (display_full_frames m H) as (body & Hrun & Hview).
  destruct (polls_end_idle _ H) as (pre & v & Hpolls & Hv).
  eexists _, body, pre, v. split; [exact Hrun|].
  split; [reflexivity|]. split; [exact Hview | now split].
Qed.

Lemma display_full_sequence_witness :
  goes_idle (busy_line (hw (ready false [1; 0]))) = true /\
  exists m' body pre v,
    display_full (ready false [1; 0]) = Done tt m' (body ++ polls [1; 0]) /\
    self m' = self (ready false [1; 0]) /\
    (forall dc cs,
       controller_view dc cs body
       = Command 0x24 :: map Data (frame_buffer (self (ready false [1; 0])))
         ++ Command 0x26 :: map Data (frame_buffer (self (ready false [1; 0])))
         ++ [Command 0x22; Data 0xF7; Command 0x20]) /\
    polls [1; 0] = pre ++ [DigitalRead BUSY_PIN v] /\ v <> 1.
Proof.
  split; [reflexivity|].
  apply (display_full_sequence (ready false [1; 0])). reflexivity.
Defined.

(** C8.  For a bitmap inside the panel, [draw(x, y, B)] first merges [B]
    into the mirror: the merge returns without touching the board, and in
    the mirror it leaves every pixel of the rectangle is the pixel of [B]
    and every other pixel is what it was.  Then it runs, on the merged
    mirror, [display_partial()] when [partial_refresh] is true and
    [display_full()] when it is false or still the [None] of the
    constructor; the two refreshes are told apart by what they send. *)
Theorem draw_dispatch m x y B :
  wf (self m) ->
  0 <= x -> x + fst (Image.size B) <= width (self m) ->
  0 <= y -> y + snd (Image.size B) <= height (self m) ->
  exists fb,
    set_frame_buffer x y B m = Done tt (set_mirror fb m) [] /\
    length fb = length (frame_buffer (self m)) /\
    (forall px py, 0 <= px < width (self m) -> 0 <= py < height (self m) ->
      mirror_bit (with_frame_buffer fb (self m)) px py
      = if bool_decide (0 <= py - y < snd (Image.size B)) &&
           bool_decide (0 <= px - x < fst (Image.size B))
        then Image.is_white (Image.load B (px - x) (py - y))
        else mirror_bit (self m) px py) /\
    draw x y B m
    = (if Py.truth (partial_refresh (self m))
       then display_partial (set_mirror fb m) else display_full (set_mirror fb m)) /\
    (partial_refresh (self m) = Some true ->
     draw x y B m = display_partial (set_mirror fb m)) /\
    (partial_refresh (self m) = Some false \/ partial_refresh (self m) = None ->
     draw x y B m = display_full (set_mirror fb m)) /\
    (goes_idle (busy_line (hw m)) = true ->
     display_partial (set_mirror fb m) <> display_full (set_mirror fb m)).
Proof.
  intros Hwf Hx Hxw Hy Hyh.
  destruct (draw_merge_then_refresh m x y B Hwf Hx Hxw Hy Hyh)
    as (fb & Hset & Hlen & Hbits & Hdraw).
  exists fb. split; [exact Hset|]. split; [exact Hlen|]. split; [exact Hbits|].
  split; [exact Hdraw|]. split; [|split].
  - intros Hp. rewrite Hdraw, Hp. reflexivity.
  - intros [Hp|Hp]; rewrite Hdraw, Hp; reflexivity.
  - intros H.
    destruct (display_partial_frames (set_mirror fb m) H) as (bp & Hp' & Hvp).
    destruct (display_full_frames (set_mirror fb m) H) as (bf & Hf' & Hvf).
    rewrite Hp', Hf'. intros E. injection E as E.
    apply app_inv_tail in E.
    pose proof (Hvp GPIO.HIGH GPIO.HIGH) as V1. rewrite E, Hvf in V1. discriminate V1.
Qed.

Lemma draw_dispatch_witness :
  wf (self (ready true [0])) /\
  exists fb,
    set_frame_buffer 8 4 (Image.solid (2, 2) 0) (ready true [0])
      = Done tt (set_mirror fb (ready true [0])) [] /\
    mirror_bit (with_frame_buffer fb (self (ready true [0]))) 9 5 = false /\
    mirror_bit (with_frame_buffer fb (self (ready true [0]))) 10 5 = true /\
    draw 8 4 (Image.solid (2, 2) 0) (ready true [0])
      = display_partial (set_mirror fb (ready true [0])) /\
    display_partial (set_mirror fb (ready true [0]))
    <> display_full (set_mirror fb (ready true [0])).
Proof.
  split; [shape_by_compute|].
  destruct (draw_dispatch (ready true [0]) 8 4 (Image.solid (2, 2) 0))
    as (fb & Hset & _ & Hbits & _ & Hpartial & _ & Hdiff).
  - shape_by_compute.
  - lia.
  - vm_compute; congruence.
  - lia.
  - vm_compute; congruence.
  - exists fb. split; [exact Hset|]. split; [|split; [|split]].
    + rewrite (Hbits 9 5) by (vm_compute; split; congruence). reflexivity.
    + rewrite (Hbits 10 5) by (vm_compute; split; congruence). reflexivity.
    + exact (Hpartial eq_refl).
    + exact (Hdiff eq_refl).
Defined.

(* ===================================================================== *)
(** ** Sleep *)

(** C5, as the code has it.  [sleep()] sends command 0x10 with the data
    byte 0x01 and returns with the machine as it was: the driver keeps no
    device state, and a [draw] or [clear] after it runs as it would have
    run without it.  A [clear()] after [sleep()] returns once the BUSY line
    goes idle, and so does a [draw] of a bitmap inside the panel, with the
    bitmap merged into the mirror. *)
Theorem sleep_keeps_no_state m :
  sleep m = Done tt m (command_events 0x10 ++ data_events [0x01]) /\
  (forall dc cs,
     controller_view dc cs (command_events 0x10 ++ data_events [0x01])
     = [Command 0x10; Data 0x01]) /\
  (forall x y image,
     (sleep;; draw x y image) m
     = prepend (command_events 0x10 ++ data_events [0x01]) (draw x y image m)) /\
  (sleep;; clear) m = prepend (command_events 0x10 ++ data_events [0x01]) (clear m) /\
  (0 <= width (self m) -> goes_idle (busy_line (hw m)) = true ->
   exists m' out, (sleep;; clear) m = Done tt m' out /\ self m' = self m) /\
  (forall x y image p,
     wf (self m) ->
     0 <= x -> x + fst (Image.size image) <= width (self m) ->
     0 <= y -> y + snd (Image.size image) <= height (self m) ->
     partial_refresh (self m) = Some p ->
     goes_idle (busy_line (hw m)) = true ->
     exists fb m' out,
       set_frame_buffer x y image m = Done tt (set_mirror fb m) [] /\
       (sleep;; draw x y image) m = Done tt m' out /\
       self m' = with_frame_buffer fb (self m)).
Proof.
  assert (Hsleep : forall A (c : M A),
    (sleep;; c) m = prepend (command_events 0x10 ++ data_events [0x01]) (c m))
    by reflexivity.
  split; [reflexivity|]. split; [reflexivity|]. split; [intros; apply Hsleep|].
  split; [apply Hsleep|]. split.
  - intros Hw H. rewrite Hsleep, (clear_run m Hw H). eexists _, _. split; reflexivity.
  - intros x y image p Hwf Hx Hxw Hy Hyh Hp H.
    destruct (draw_run m x y image p Hwf Hx Hxw Hy Hyh Hp) as (fb & Hset & _ & _ & Hdraw).
    exists fb. rewrite Hsleep, Hdraw. destruct p.
    + destruct (display_partial_run (set_mirror fb m) H) as (head & Hrun & _).
      rewrite Hrun. eexists _, _. split; [exact Hset | split; reflexivity].
    + rewrite (display_full_run (set_mirror fb m) H).
      eexists _, _. split; [exact Hset | split; reflexivity].
Qed.

Lemma sleep_keeps_no_state_witness :
  0 <= width (self (ready true [1; 0])) /\
  goes_idle (busy_line (hw (ready true [1; 0]))) = true /\
  exists m' out,
    (sleep;; clear) (ready true [1; 0]) = Done tt m' out /\
    self m' = self (ready true [1; 0]).
Proof.
  split; [vm_compute; congruence | split; [reflexivity|]].
  apply (sleep_keeps_no_state (ready true [1; 0])); [vm_compute; congruence | reflexivity].
Defined.

(** C5, as the specification words it, fails: on an initialised driver that has been
    put to sleep, [clear()] and [draw()] return normally and the controller
    receives their RAM writes and activation. *)
Lemma clear_and_draw_run_after_sleep :
  (exists m' out,
     (sleep;; clear) (ready true [0]) = Done tt m' out /\
     commands_of (controller_view GPIO.HIGH GPIO.HIGH out)
     = [0x10; 0x24; 0x26; 0x22; 0x20]) /\
  (exists m' out,
     (sleep;; draw 0 0 (Image.solid (1, 1) 0)) (ready true [0]) = Done tt m' out /\
     commands_of (controller_view GPIO.HIGH GPIO.HIGH out)
     = [0x10; 0x3C; 0x21; 0x3C; 0x44; 0x45; 0x4E; 0x4F; 0x24; 0x22; 0x20]).
Proof.
  split.
  - destruct (clear_frames (ready true [0])) as (body & Hrun & Hview);
      [vm_compute; congruence | reflexivity |].
    eexists _, _. split.
    + rewrite bind_run. change (sleep ?m) with
        (Done tt m (command_events 0x10 ++ data_events [0x01])).
      cbv beta iota. rewrite Hrun. reflexivity.
    + rewrite <- app_assoc, view_command, view_data, view_polls_tail, Hview.
      now read_commands.
  - destruct (draw_run (ready true [0]) 0 0 (Image.solid (1, 1) 0) true)
      as (fb & _ & _ & _ & Hdraw);
      [exact wf_init | lia | vm_compute; congruence | lia | vm_compute; congruence
      | reflexivity |].
    destruct (display_partial_frames (set_mirror fb (ready true [0])) eq_refl)
      as (body & Hrun & Hview).
    eexists _, _. split.
    + rewrite bind_run. change (sleep ?m) with
        (Done tt m (command_events 0x10 ++ data_events [0x01])).
      cbv beta iota. rewrite Hdraw, Hrun. reflexivity.
    + rewrite <- app_assoc, view_command, view_data, view_polls_tail, Hview.
      now read_commands.
Qed.

(* ===================================================================== *)
(** ** Panel dimensions are never assigned *)

Create HintDb shape.

Lemma keeps_shape_ret {A} (a : A) : keeps_shape (mret a).
Proof. intros m a' m' o E. injection E as _ <- _. now split. Qed.

Lemma keeps_shape_bind {A B} (c : M A) (f : A -> M B) :
  keeps_shape c -> (forall a, keeps_shape (f a)) -> keeps_shape (c ≫= f).
Proof.
  intros Hc Hf m b m' o. rewrite bind_run.
  destruct (c m) as [a m1 o1| |] eqn:E1; try discriminate.
  destruct (f a m1) as [b' m2 o2| |] eqn:E2; try discriminate.
  simpl. intros E. injection E as _ <- _.
  destruct (Hf _ _ _ _ _ E2) as [-> ->]. exact (Hc _ _ _ _ E1).
Qed.

Lemma keeps_shape_for_in {A S} (l : list A) (body : A -> S -> M S) :
  (forall x acc, keeps_shape (body x acc)) -> forall acc, keeps_shape (for_in l body acc).
Proof.
  intros Hb. induction l as [|x l IH]; intros acc.
  - apply keeps_shape_ret.
  - simpl. apply keeps_shape_bind; [apply Hb | exact IH].
Qed.

Lemma keeps_shape_for_each {A} (l : list A) (body : A -> M unit) :
  (forall x, keeps_shape (body x)) -> keeps_shape (for_each l body).
Proof. intros Hb. apply keeps_shape_for_in. intros x _. apply Hb. Qed.

Lemma keeps_shape_emit e : keeps_shape (emit e).
Proof. intros m a m' o E. injection E as _ <- _. now split. Qed.

Lemma keeps_shape_getattr {A} (f : EPD4in2v2 -> A) : keeps_shape (getattr f).
Proof. intros m a m' o E. injection E as _ <- _. now split. Qed.

Lemma keeps_shape_fb_get k : keeps_shape (fb_get k).
Proof.
  intros m a m' o. unfold fb_get.
  destruct (Py.index _ k); [|discriminate].
  destruct (_ !! _); [|discriminate]. intros E. injection E as _ <- _. now split.
Qed.

Lemma keeps_shape_fb_set k v : keeps_shape (fb_set k v).
Proof.
  intros m a m' o. unfold fb_set.
  destruct (Py.index _ k); [|discriminate]. intros E. injection E as _ <- _. now split.
Qed.

Lemma keeps_shape_get_partial_refresh : keeps_shape get_partial_refresh.
Proof. intros m a m' o E. injection E as _ <- _. now split. Qed.

Lemma keeps_shape_returned {A} (r : exn + A) : keeps_shape (returned r).
Proof.
  intros m a m' o. unfold returned.
  destruct r; [discriminate|]. intros E. injection E as _ <- _. now split.
Qed.

Lemma keeps_shape_digital_read p : keeps_shape (digital_read p).
Proof.
  intros m a m' o. unfold digital_read.
  destruct (busy_line _); [discriminate|]. intros E. injection E as _ <- _. now split.
Qed.

#[local] Hint Resolve keeps_shape_ret keeps_shape_emit keeps_shape_getattr
  keeps_shape_fb_get keeps_shape_fb_set keeps_shape_get_partial_refresh
  keeps_shape_returned keeps_shape_digital_read : shape.

(** Method bodies are binds, loops and branches over the calls above. *)
Ltac shape :=
  repeat first
    [ solve [auto with shape]
    | apply keeps_shape_bind; [|intros ?]
    | apply keeps_shape_for_each; intros ?
    | apply keeps_shape_for_in; intros ? ?
    | match goal with |- keeps_shape (if ?b then _ else _) => destruct b end
    | match goal with |- keeps_shape (match ?p with PInt _ => _ | PList _ => _ end) =>
        destruct p end ].

Lemma keeps_shape_send_command c : keeps_shape (send_command c).
Proof. unfold send_command, digital_write, spi_transfer. shape. Qed.

Lemma keeps_shape_send_data d : keeps_shape (send_data d).
Proof. unfold send_data, digital_write, spi_transfer. shape. Qed.

Lemma keeps_shape_wait_loop turns : keeps_shape (wait_loop turns).
Proof.
  induction turns as [|n IH]; [intros m a m' o E; discriminate|].
  simpl. unfold delay_ms. shape.
Qed.

Lemma keeps_shape_wait_until_idle : keeps_shape wait_until_idle.
Proof. intros m a m' o E. exact (keeps_shape_wait_loop _ _ _ _ _ E). Qed.

#[local] Hint Resolve keeps_shape_send_command keeps_shape_send_data
  keeps_shape_wait_until_idle : shape.

Lemma keeps_shape_display_full : keeps_shape display_full.
Proof. unfold display_full, turn_on_display. shape. Qed.

Lemma keeps_shape_display_partial : keeps_shape display_partial.
Proof. unfold display_partial, turn_on_display_partial. shape. Qed.

Lemma keeps_shape_set_frame_buffer x y image : keeps_shape (set_frame_buffer x y image).
Proof. unfold set_frame_buffer. destruct (Image.size image). shape. Qed.

Lemma keeps_shape_draw x y image : keeps_shape (draw x y image).
Proof.
  unfold draw. apply keeps_shape_bind; [apply keeps_shape_set_frame_buffer|intros _].
  apply keeps_shape_bind; [apply keeps_shape_get_partial_refresh|intros p].
  destruct p; [apply keeps_shape_display_partial | apply keeps_shape_display_full].
Qed.

(* ===================================================================== *)
(** ** Fill *)

Lemma for_each_app {A} (l1 l2 : list A) (body : A -> M unit) m :
  for_each (l1 ++ l2) body m = (for_each l1 body;; for_each l2 body) m.
Proof.
  revert m. induction l1 as [|x l1 IH]; intros m.
  - simpl app. rewrite bind_run, for_each_nil. cbv beta iota. now rewrite prepend_nil.
  - simpl app. rewrite for_each_cons, !bind_run, for_each_cons, bind_run.
    destruct (body x m) as [[] m1 o1| |]; [|reflexivity..].
    cbv beta iota. rewrite IH, bind_run.
    destruct (for_each l1 body m1) as [[] m2 o2| |]; [|reflexivity..].
    simpl. now rewrite prepend_prepend.
Qed.

Lemma for_each_map {A B} (f : A -> B) l (body : B -> M unit) m :
  for_each (map f l) body m = for_each l (fun x => body (f x)) m.
Proof.
  revert m. induction l as [|x l IH]; intros m; [reflexivity|].
  simpl map. rewrite !for_each_cons, !bind_run.
  destruct (body (f x) m) as [[] m1 o1| |]; [|reflexivity..]. now rewrite IH.
Qed.

Lemma for_each_one {A} (x : A) (body : A -> M unit) m : for_each [x] body m = body x m.
Proof.
  rewrite for_each_cons, bind_run.
  destruct (body x m) as [[] m1 o1| |]; [|reflexivity..].
  simpl. now rewrite app_nil_r.
Qed.

Lemma range_nil n : n <= 0 -> Py.range n = [].
Proof. intros H. unfold Py.range. now apply seqZ_nil. Qed.

Lemma range_cons n : 0 < n -> Py.range n = 0 :: seqZ 1 (n - 1).
Proof. intros H. unfold Py.range. now rewrite seqZ_cons by lia. Qed.

Lemma returned_bind {A B} (r : exn + A) (f : A -> M B) m :
  (returned r ≫= f) m = match r with inl e => Raised e | inr a => f a m end.
Proof. rewrite bind_run. destruct r as [e|a]; [reflexivity | apply prepend_nil]. Qed.

Lemma for_each_returned {A B} (r : exn + B) b l (f : A -> B -> M unit) m :
  r = inr b ->
  for_each l (fun x => returned r ≫= f x) m = for_each l (fun x => f x b) m.
Proof. intros ->. apply for_each_ext. intros x m'. apply returned_bind. Qed.

(** [fill] builds the image of the full tiles first, whether or not a
    full tile fits, and then issues the draw calls of [fill_tiles], in
    order, at x = 0 and over the full width; the image of the remainder is
    built when its turn comes. *)
Lemma fill_with_first (d : Z -> Z -> Image.t -> M unit) color fillsize m :
  (forall x y image, keeps_shape (d x y image)) ->
  fillsize <> 0 ->
  fill_with d color fillsize m
  = (returned (Image.new (width (self m), fillsize) color);;
     for_each (fill_tiles (height (self m)) fillsize)
       (fun t => image ← returned (Image.new (width (self m), snd t) color);
                 d 0 (fst t) image)) m.
Proof.
  intros Hd Hf. unfold fill_with, fill_tiles.
  rewrite bind_run, getattr_run. cbv beta iota. rewrite prepend_nil.
  destruct (Z.eqb_spec fillsize 0) as [|_]; [contradiction|].
  rewrite bind_run, getattr_run. cbv beta iota. rewrite prepend_nil.
  rewrite !returned_bind.
  destruct (Image.new (width (self m), fillsize) color) as [e|image] eqn:Enew;
    [reflexivity|].
  rewrite for_each_app, !bind_run, for_each_map. cbn [fst snd].
  rewrite (for_each_returned _ image _ (fun i image => d 0 (i * fillsize) image) m Enew).
  destruct (for_each (Py.range (height (self m) `div` fillsize)) _ m)
    as [[] m1 o1| |] eqn:E1; [|reflexivity..].
  cbv beta iota. f_equal.
  assert (Hw : width (self m1) = width (self m)).
  { eapply (keeps_shape_for_each _ _ (fun i => Hd _ _ _)). exact E1. }
  destruct (negb (height (self m) `mod` fillsize =? 0)).
  - rewrite for_each_one. cbn [fst snd].
    rewrite bind_run, getattr_run. cbv beta iota. rewrite prepend_nil. now rewrite Hw.
  - reflexivity.
Qed.

(** When a full tile fits, the image built first is the image of the first
    draw call. *)
Lemma fill_with_calls (d : Z -> Z -> Image.t -> M unit) color fillsize m :
  (forall x y image, keeps_shape (d x y image)) ->
  0 < fillsize <= height (self m) ->
  fill_with d color fillsize m
  = for_each (fill_tiles (height (self m)) fillsize)
      (fun t => image ← returned (Image.new (width (self m), snd t) color);
                d 0 (fst t) image) m.
Proof.
  intros Hd [Hf Hh]. rewrite fill_with_first by (assumption || lia).
  rewrite returned_bind.
  destruct (Image.new (width (self m), fillsize) color) as [e|image] eqn:Enew;
    [|reflexivity].
  assert (Hq : 0 < height (self m) `div` fillsize)
    by (apply Z.div_str_pos; lia).
  unfold fill_tiles. rewrite (range_cons _ Hq). cbn [map app fst snd].
  rewrite for_each_cons, bind_run. cbn [fst snd]. now rewrite returned_bind, Enew.
Qed.

(** With a size [Image.new] accepts, every tile is drawn from an image of
    the clipped colour. *)
Lemma fill_with_solid (d : Z -> Z -> Image.t -> M unit) color fillsize m :
  (forall x y image, keeps_shape (d x y image)) ->
  0 < fillsize ->
  Image.size_ok (width (self m), fillsize) = true ->
  fill_with d color fillsize m
  = for_each (fill_tiles (height (self m)) fillsize)
      (fun t => d 0 (fst t) (Image.solid (width (self m), snd t) (Image.clip8 color))) m.
Proof.
  intros Hd Hf Hok. rewrite fill_with_first by (assumption || lia).
  rewrite returned_bind, (new_ok _ color Hok).
  apply size_ok_range in Hok as [Hw [_ Hts]]. cbn [fst snd] in Hw, Hts.
  apply for_each_ext_in. intros [y th] m' Ht. cbn [fst snd].
  rewrite returned_bind, new_ok; [reflexivity|].
  apply size_ok_range. cbn [fst snd]. split; [exact Hw|].
  unfold fill_tiles in Ht.
  pose proof (Z.mod_pos_bound (height (self m)) fillsize Hf) as Hm.
  apply elem_of_app in Ht as [Ht|Ht].
  - apply list_elem_of_fmap in Ht as (i & E & _). injection E as _ ->. lia.
  - destruct (height (self m) `mod` fillsize =? 0); simpl in Ht.
    + now apply elem_of_nil in Ht.
    + apply list_elem_of_singleton in Ht. injection Ht as _ ->. lia.
Qed.

Lemma fill_tiles_length h ts :
  0 < ts -> 0 <= h -> Z.of_nat (length (fill_tiles h ts)) = (h + ts - 1) `div` ts.
Proof.
  intros Hts Hh. unfold fill_tiles, Py.range.
  rewrite length_app, length_map, length_seqZ.
  pose proof (Z.div_mod h ts ltac:(lia)) as Hd.
  pose proof (Z.mod_pos_bound h ts Hts) as Hm.
  assert (0 <= h `div` ts) by (apply Z.div_pos; lia).
  destruct (Z.eqb_spec (h `mod` ts) 0) as [E|NE]; simpl length.
  - apply Z.div_unique with (ts - 1); lia.
  - apply Z.div_unique with (h `mod` ts - 1); [lia | nia].
Qed.

Lemma fill_tiles_lookup h ts (k : nat) y th :
  0 < ts -> 0 <= h ->
  fill_tiles h ts !! k = Some (y, th) <->
  y = Z.of_nat k * ts /\
  ((Z.of_nat k < h `div` ts /\ th = ts) \/
   (Z.of_nat k = h `div` ts /\ h `mod` ts <> 0 /\ th = h `mod` ts)).
Proof.
  intros Hts Hh. unfold fill_tiles, Py.range.
  assert (Hq : 0 <= h `div` ts) by (apply Z.div_pos; lia).
  assert (Hl : length (map (fun i => (i * ts, ts)) (seqZ 0 (h `div` ts)))
               = Z.to_nat (h `div` ts)) by now rewrite length_map, length_seqZ.
  destruct (decide (Z.of_nat k < h `div` ts)) as [Hk|Hk].
  - rewrite lookup_app_l by lia. rewrite list_lookup_fmap.
    rewrite (proj2 (lookup_seqZ 0 (h `div` ts) k (Z.of_nat k))) by lia.
    simpl. split.
    + intros E. injection E as <- <-. split; [reflexivity | left; now split].
    + intros (-> & [[_ ->]|[? _]]); [reflexivity | lia].
  - rewrite lookup_app_r by lia. rewrite Hl.
    destruct (Z.eqb_spec (h `mod` ts) 0) as [E|NE]; simpl.
    + rewrite lookup_nil. split; [discriminate|]. intros (_ & [[? _]|(_ & ? & _)]); lia.
    + destruct (decide (Z.of_nat k = h `div` ts)) as [Ek|Nk].
      * replace (k - Z.to_nat (h `div` ts))%nat with 0%nat by lia. simpl. split.
        -- intros E. injection E as <- <-. split; [now rewrite Ek | right; auto].
        -- intros (-> & [[? _]|(_ & _ & ->)]); [lia | now rewrite Ek].
      * destruct (k - Z.to_nat (h `div` ts))%nat as [|n] eqn:En; [lia|]. simpl.
        split; [discriminate|]. intros (_ & [[? _]|(? & _)]); lia.
Qed.

Lemma in_tile_iff h ts (k : nat) y th r :
  0 < ts -> 0 <= h ->
  fill_tiles h ts !! k = Some (y, th) ->
  (y <= r < y + th <-> 0 <= r < h /\ k = Z.to_nat (r `div` ts)).
Proof.
  intros Hts Hh Hk. apply fill_tiles_lookup in Hk as (-> & Hcase); try assumption.
  pose proof (Z.div_mod h ts ltac:(lia)) as Hd.
  pose proof (Z.mod_pos_bound h ts Hts) as Hm.
  pose proof (Z.div_mod r ts ltac:(lia)) as Hdr.
  pose proof (Z.mod_pos_bound r ts Hts) as Hmr.
  destruct Hcase as [[Hlt ->]|(Heq & Hne & ->)].
  - split.
    + intros Hr. assert (r `div` ts = Z.of_nat k) by nia. split; [nia | lia].
    + intros [Hr ->]. rewrite Z2Nat.id by (apply Z.div_pos; lia). nia.
  - split.
    + intros Hr. assert (r `div` ts = Z.of_nat k) by nia. split; [nia | lia].
    + intros [Hr ->]. rewrite Z2Nat.id in * by (apply Z.div_pos; lia). nia.
Qed.

Lemma tile_of_row h ts r :
  0 < ts -> 0 <= r < h ->
  exists y th, fill_tiles h ts !! Z.to_nat (r `div` ts) = Some (y, th).
Proof.
  intros Hts Hr.
  pose proof (Z.div_mod h ts ltac:(lia)) as Hd.
  pose proof (Z.mod_pos_bound h ts Hts) as Hm.
  pose proof (Z.div_mod r ts ltac:(lia)) as Hdr.
  pose proof (Z.mod_pos_bound r ts Hts) as Hmr.
  assert (0 <= r `div` ts) by (apply Z.div_pos; lia).
  assert (r `div` ts <= h `div` ts) by (apply Z.div_le_mono; lia).
  destruct (decide (r `div` ts < h `div` ts)) as [Hlt|Hge].
  - exists (r `div` ts * ts), ts. apply fill_tiles_lookup; [lia..|].
    rewrite Z2Nat.id by lia. split; [reflexivity | left; now split].
  - exists (r `div` ts * ts), (h `mod` ts). apply fill_tiles_lookup; [lia..|].
    rewrite Z2Nat.id by lia. split; [reflexivity | right]. repeat split; [lia | nia].
Qed.

(** C9.  For 0 < tileHeight <= height, [fill(color, tileHeight)] is the
    sequence of draw calls of [fill_tiles], all at x = 0 and of full width,
    each with an image [Image.new] builds for the tile:
    ceil(height / tileHeight) of them, call k < floor(height / tileHeight)
    at y = k * tileHeight with height tileHeight, and a last one of height
    (height mod tileHeight) when that is not zero; every row of [0, height)
    lies in exactly one of the drawn rectangles, and no rectangle leaves
    [0, height).  With a width and a tile height [Image.new] accepts, the
    image of every call is of the clipped colour throughout. *)
Theorem fill_tiling m color ts :
  0 < ts <= height (self m) ->
  fill color ts m
  = for_each (fill_tiles (height (self m)) ts)
      (fun t => image ← returned (Image.new (width (self m), snd t) color);
                draw 0 (fst t) image) m /\
  (Image.size_ok (width (self m), ts) = true ->
   fill color ts m
   = for_each (fill_tiles (height (self m)) ts)
       (fun t => draw 0 (fst t)
                   (Image.solid (width (self m), snd t) (Image.clip8 color))) m) /\
  Z.of_nat (length (fill_tiles (height (self m)) ts))
  = (height (self m) + ts - 1) `div` ts /\
  (forall k, 0 <= k < height (self m) `div` ts ->
     fill_tiles (height (self m)) ts !! Z.to_nat k = Some (k * ts, ts)) /\
  (height (self m) `mod` ts <> 0 ->
     fill_tiles (height (self m)) ts !! Z.to_nat (height (self m) `div` ts)
     = Some (height (self m) `div` ts * ts, height (self m) `mod` ts) /\
     Z.of_nat (length (fill_tiles (height (self m)) ts)) = height (self m) `div` ts + 1) /\
  (height (self m) `mod` ts = 0 ->
     Z.of_nat (length (fill_tiles (height (self m)) ts)) = height (self m) `div` ts) /\
  (forall r, 0 <= r < height (self m) ->
     exists y th,
       fill_tiles (height (self m)) ts !! Z.to_nat (r `div` ts) = Some (y, th) /\
       y <= r < y + th) /\
  (forall r (k : nat) y th,
     fill_tiles (height (self m)) ts !! k = Some (y, th) -> y <= r < y + th ->
     0 <= r < height (self m) /\ k = Z.to_nat (r `div` ts)).
Proof.
  intros [Hts Hh]. set (h := height (self m)) in *.
  assert (Hh0 : 0 <= h) by lia.
  assert (Hq : 0 <= h `div` ts) by (apply Z.div_pos; lia).
  assert (Hlen : Z.of_nat (length (fill_tiles h ts))
                 = h `div` ts + (if h `mod` ts =? 0 then 0 else 1)).
  { unfold fill_tiles, Py.range. rewrite length_app, length_map, length_seqZ.
    destruct (h `mod` ts =? 0); simpl length; lia. }
  split; [|split; [|split; [|split; [|split; [|split; [|split]]]]]].
  - apply fill_with_calls; [apply keeps_shape_draw | now split].
  - intros Hok. apply fill_with_solid; [apply keeps_shape_draw | exact Hts | exact Hok].
  - now apply fill_tiles_length.
  - intros k Hk. apply fill_tiles_lookup; [lia..|].
    rewrite Z2Nat.id by lia. split; [reflexivity | left; split; [lia | reflexivity]].
  - intros Hne. split.
    + apply fill_tiles_lookup; [lia..|].
      rewrite Z2Nat.id by lia. split; [reflexivity | right; auto].
    + rewrite Hlen. destruct (Z.eqb_spec (h `mod` ts) 0); [contradiction | reflexivity].
  - intros He. rewrite Hlen, He. simpl. lia.
  - intros r Hr. destruct (tile_of_row h ts r Hts Hr) as (y & th & Hk).
    exists y, th. split; [exact Hk|].
    apply (in_tile_iff h ts _ y th r Hts Hh0 Hk). now split.
  - intros r k y th Hk Hin. now apply (in_tile_iff h ts k y th r Hts Hh0 Hk).
Qed.

Lemma fill_tiling_witness :
  0 < 7 <= height (self (ready false [0])) /\
  fill 0 7 (ready false [0])
  = for_each (fill_tiles 300 7)
      (fun t => draw 0 (fst t) (Image.solid (400, snd t) 0)) (ready false [0]) /\
  Z.of_nat (length (fill_tiles 300 7)) = 43 /\
  fill_tiles 300 7 !! 42%nat = Some (294, 6).
Proof.
  assert (H : 0 < 7 <= height (self (ready false [0]))) by (vm_compute; split; congruence).
  split; [exact H|].
  destruct (fill_tiling (ready false [0]) 0 7 H) as (_ & Hcalls & Hlen & _ & Hlast & _).
  split; [exact (Hcalls eq_refl) | split; [exact Hlen|]].
  apply Hlast. vm_compute. congruence.
Defined.

(* ===================================================================== *)
(** ** Initialisation *)

Lemma reset_run m :
  reset m
  = Done tt m [DigitalWrite RST_PIN GPIO.HIGH; DelayMs 100; DigitalWrite RST_PIN GPIO.LOW;
               DelayMs 2; DigitalWrite RST_PIN GPIO.HIGH; DelayMs 100].
Proof. reflexivity. Qed.

Lemma wait_idle_now d busy :
  wait_until_idle (on_board d (0 :: busy))
  = Done tt (on_board d busy) [DigitalRead BUSY_PIN 0].
Proof. reflexivity. Qed.

Ltac init_step :=
  rewrite bind_run;
  first [ rewrite send_command_run | rewrite send_data_int_run
        | rewrite reset_run | rewrite wait_idle_now ];
  cbv beta iota.

(** C4, on the code.  On a board whose transport comes up and whose BUSY
    line is idle, [init_fast()] sends the register sequence, takes its four
    waits and returns: nothing of [clear()] follows.  [init()] on the same
    board sends its register sequence, takes three waits, and then runs
    [clear()]. *)
Theorem init_fast_returns_without_clear d p g :
  (exists out,
     init_fast p g (on_board d [0; 0; 0; 0]) = Done None (on_board (with_mode p g d) []) out /\
     controller_view GPIO.HIGH GPIO.HIGH out
     = [Command 0x12; Command 0x21; Data 0x40; Data 0x00; Command 0x3C; Data 0x05;
        Command 0x1A; Data 0x5A; Command 0x22; Data 0x91; Command 0x20;
        Command 0x11; Data 0x03] ++ ram_window_frames) /\
  (exists out,
     init p g (on_board d [0; 0; 0; 0])
     = prepend out ((clear;; mret None) (on_board (with_mode p g d) [0])) /\
     forall rest,
       controller_view GPIO.HIGH GPIO.HIGH (out ++ rest)
       = [Command 0x12; Command 0x21; Data 0x40; Data 0x00; Command 0x3C; Data 0x05;
          Command 0x11; Data 0x03] ++ ram_window_frames
         ++ controller_view GPIO.HIGH GPIO.HIGH rest).
Proof.
  split.
  - eexists. split; reflexivity.
  - eexists. split.
    + unfold init. rewrite bind_run.
      change (update (with_mode p g) (on_board d [0; 0; 0; 0]))
        with (Done tt (on_board (with_mode p g d) [0; 0; 0; 0]) []).
      cbv beta iota. rewrite prepend_nil, bind_run.
      change (epd_init (on_board (with_mode p g d) [0; 0; 0; 0]))
        with (Done 0 (on_board (with_mode p g d) [0; 0; 0; 0]) [EpdInit 0]).
      cbv beta iota. change (negb (0 =? 0)) with false. cbv iota.
      do 25 init_step.
      rewrite !prepend_prepend. reflexivity.
    + intros rest. reflexivity.
Qed.

(* ===================================================================== *)
(** * Further properties of the driver *)

(** ** The merge outside its rectangle and outside the panel *)

(** X1.  A merge into a rectangle inside the panel returns without touching
    the board, keeps the length of the mirror, and leaves every pixel
    outside the rectangle as it was. *)
Theorem merge_keeps_outside m x y B :
  wf (self m) ->
  0 <= x -> x + fst (Image.size B) <= width (self m) ->
  0 <= y -> y + snd (Image.size B) <= height (self m) ->
  exists fb,
    set_frame_buffer x y B m = Done tt (set_mirror fb m) [] /\
    length fb = length (frame_buffer (self m)) /\
    forall px py, 0 <= px < width (self m) -> 0 <= py < height (self m) ->
      in_rect x y B px py = false ->
      mirror_bit (with_frame_buffer fb (self m)) px py = mirror_bit (self m) px py.
Proof.
  intros Hwf Hx Hxw Hy Hyh.
  destruct (set_frame_buffer_run m x y B Hwf Hx Hxw Hy Hyh) as (fb & Hset & Hlen & Hbits).
  exists fb. split; [exact Hset | split; [exact Hlen|]].
  intros px py Hpx Hpy Hout. rewrite (Hbits px py Hpx Hpy).
  unfold in_rect in Hout. now rewrite Hout.
Qed.

Lemma merge_keeps_outside_witness :
  wf (self (power_on [])) /\
  exists fb,
    set_frame_buffer 3 1 (Image.solid (2, 1) 0) (power_on [])
      = Done tt (set_mirror fb (power_on [])) [] /\
    length fb = length (frame_buffer (self (power_on []))) /\
    forall px py, 0 <= px < 400 -> 0 <= py < 300 ->
      in_rect 3 1 (Image.solid (2, 1) 0) px py = false ->
      mirror_bit (with_frame_buffer fb (self (power_on []))) px py
      = mirror_bit (self (power_on [])) px py.
Proof.
  split; [shape_by_compute|].
  apply (merge_keeps_outside (power_on []) 3 1 (Image.solid (2, 1) 0)).
  - shape_by_compute.
  - lia.
  - vm_compute; congruence.
  - lia.
  - vm_compute; congruence.
Defined.

Lemma for_each_skip {A} l (body : A -> M unit) :
  (forall x m, body x m = Done tt m []) -> forall m, for_each l body m = Done tt m [].
Proof.
  intros Hb. induction l as [|x l IH]; intros m; [reflexivity|].
  now rewrite for_each_cons, bind_run, Hb, IH.
Qed.

(** X2.  An empty bitmap is merged without any effect and without error,
    wherever it is placed. *)
Theorem merge_empty_bitmap m x y B :
  fst (Image.size B) <= 0 \/ snd (Image.size B) <= 0 ->
  set_frame_buffer x y B m = Done tt m [].
Proof.
  intros H. unfold set_frame_buffer.
  destruct (Image.size B) as [imwidth imheight]. simpl in H.
  destruct (Z_le_gt_dec imheight 0) as [Hh|Hh].
  - now rewrite (range_nil imheight Hh).
  - destruct H as [Hw|?]; [|lia]. rewrite (range_nil imwidth Hw).
    apply for_each_skip. intros j m'. reflexivity.
Qed.

Lemma merge_empty_bitmap_witness :
  set_frame_buffer 1000 (-5) (Image.solid (0, 7) 0) (power_on []) = Done tt (power_on []) [].
Proof.
  apply (merge_empty_bitmap (power_on []) 1000 (-5) (Image.solid (0, 7) 0)).
  left. vm_compute. congruence.
Defined.

Lemma for_each_ext_inv {A} (P : machine -> Prop) l (f g : A -> M unit) :
  (forall x m, P m -> f x m = g x m) ->
  (forall x m a m' o, P m -> g x m = Done a m' o -> P m') ->
  forall m, P m -> for_each l f m = for_each l g m.
Proof.
  intros E Hk. induction l as [|x l IH]; intros m Hm; [reflexivity|].
  rewrite !for_each_cons, !bind_run, (E x m Hm).
  destruct (g x m) as [[] m1 o1| |] eqn:Hg; [|reflexivity..].
  now rewrite (IH m1 (Hk _ _ _ _ _ Hm Hg)).
Qed.

Lemma plot_same_cell qx qx' idxj idxj' p m :
  qx `div` 8 + idxj = qx' `div` 8 + idxj' -> qx `mod` 8 = qx' `mod` 8 ->
  plot qx idxj p m = plot qx' idxj' p m.
Proof. intros Hd Hm. unfold plot. now rewrite Hd, Hm. Qed.

(** X3.  There is no check on the right edge: with a width of whole bytes,
    merging at (x + width, y) is the merge at (x, y + 1): what overruns a
    row lands at the start of the next one. *)
Theorem merge_wraps_to_next_row m x y B :
  width (self m) `mod` 8 = 0 ->
  set_frame_buffer (x + width (self m)) y B m = set_frame_buffer x (y + 1) B m.
Proof.
  intros H8. unfold set_frame_buffer.
  destruct (Image.size B) as [imwidth imheight].
  apply (for_each_ext_inv (fun m' => width (self m') = width (self m))); [| |reflexivity].
  - intros j m' Hw. rewrite !bind_run, !getattr_run. cbv beta iota. f_equal.
    rewrite Hw. apply for_each_ext. intros i m''.
    apply (plot_same_cell (x + width (self m) + i) (x + i)).
    + rewrite !row_offset by assumption.
      pose proof (Z.div_mod (width (self m)) 8 ltac:(lia)) as Hd. rewrite H8 in Hd.
      replace (x + width (self m) + i) with (x + i + width (self m) `div` 8 * 8) by lia.
      rewrite Z.div_add by lia. ring.
    + pose proof (Z.div_mod (width (self m)) 8 ltac:(lia)) as Hd. rewrite H8 in Hd.
      replace (x + width (self m) + i) with (x + i + width (self m) `div` 8 * 8) by lia.
      apply Z.mod_add. lia.
  - intros j m' a m'' o Hw Hrun. rewrite <- Hw.
    revert Hrun. match goal with |- ?c m' = _ -> _ =>
      assert (Hk : keeps_shape c) by shape end.
    intros Hrun. exact (proj1 (Hk _ _ _ _ Hrun)).
Qed.

Lemma merge_wraps_to_next_row_witness :
  width (self (power_on [])) `mod` 8 = 0 /\
  set_frame_buffer (398 + width (self (power_on []))) 4 (Image.solid (2, 1) 0) (power_on [])
  = set_frame_buffer 398 (4 + 1) (Image.solid (2, 1) 0) (power_on []).
Proof.
  split; [reflexivity|].
  apply (merge_wraps_to_next_row (power_on []) 398 4 (Image.solid (2, 1) 0)). reflexivity.
Defined.

(** X4.  A non-empty bitmap placed at or below the bottom edge raises
    [IndexError] on its first pixel. *)
Theorem merge_below_panel_raises m x y B :
  wf (self m) ->
  0 <= x -> height (self m) <= y ->
  0 < fst (Image.size B) -> 0 < snd (Image.size B) ->
  set_frame_buffer x y B m = Raised IndexError.
Proof.
  intros (Hw & H8 & Hh & Hlen) Hx Hy Hbw Hbh. unfold set_frame_buffer.
  destruct (Image.size B) as [imwidth imheight]. simpl in Hbw, Hbh.
  rewrite (range_cons imheight Hbh), for_each_cons, bind_run, bind_run, getattr_run.
  cbv beta iota.
  rewrite (range_cons imwidth Hbw), for_each_cons, bind_run.
  assert (Hidx : Py.index (length (frame_buffer (self m)))
                   ((x + 0) `div` 8 + ((y + 0) * width (self m)) `div` 8) = None).
  { rewrite row_offset by assumption.
    replace (width (self m) * height (self m)) with (height (self m) * width (self m))
      in Hlen by ring.
    rewrite row_offset in Hlen by assumption.
    assert (0 <= (x + 0) `div` 8) by (apply Z.div_pos; lia).
    assert (0 < width (self m) `div` 8).
    { pose proof (Z.div_mod (width (self m)) 8 ltac:(lia)). lia. }
    unfold Py.index.
    destruct (Z.ltb_spec ((x + 0) `div` 8 + (y + 0) * (width (self m) `div` 8))
                (Z.of_nat (length (frame_buffer (self m))))); [nia|].
    rewrite andb_false_r.
    destruct (Z.ltb_spec ((x + 0) `div` 8 + (y + 0) * (width (self m) `div` 8)) 0); [nia|].
    now rewrite andb_false_r. }
  assert (Hget : fb_get ((x + 0) `div` 8 + ((y + 0) * width (self m)) `div` 8) m
                 = Raised IndexError).
  { unfold fb_get. now rewrite Hidx. }
  destruct (negb (Image.load B 0 0 =? 0)); rewrite bind_run, Hget; reflexivity.
Qed.

Lemma merge_below_panel_raises_witness :
  wf (self (power_on [])) /\
  set_frame_buffer 0 300 (Image.solid (1, 1) 0) (power_on []) = Raised IndexError.
Proof.
  split; [shape_by_compute|].
  apply (merge_below_panel_raises (power_on []) 0 300 (Image.solid (1, 1) 0)).
  - shape_by_compute.
  - lia.
  - vm_compute; congruence.
  - vm_compute; congruence.
  - vm_compute; congruence.
Defined.

(* ===================================================================== *)
(** ** The mirror stays a list of bytes *)

Lemma is_byte_bits v :
  is_byte v = true <-> 0 <= v /\ forall k, 8 <= k -> Z.testbit v k = false.
Proof.
  unfold is_byte. rewrite andb_true_iff, Z.leb_le, Z.ltb_lt. split.
  - intros [H0 H1]. split; [exact H0|]. intros k Hk.
    rewrite <- (Z.mod_small v (2 ^ 8)) by (change (2 ^ 8) with 256; lia).
    apply Z.mod_pow2_bits_high. lia.
  - intros [H0 Hb]. split; [exact H0|].
    assert (E : v = v `mod` 2 ^ 8).
    { apply Z.bits_inj'. intros k Hk. destruct (Z_lt_ge_dec k 8) as [Hlt|Hge].
      - now rewrite Z.mod_pow2_bits_low by lia.
      - rewrite Z.mod_pow2_bits_high by lia. apply Hb. lia. }
    rewrite E. change (2 ^ 8) with 256. apply Z.mod_pos_bound. lia.
Qed.

Lemma is_byte_set v r : 0 <= r < 8 -> is_byte v = true ->
  is_byte (Z.lor v (Z.shiftr 0x80 r)) = true.
Proof.
  intros Hr Hv. apply is_byte_bits in Hv as [H0 Hb]. apply is_byte_bits. split.
  - apply Z.lor_nonneg. split; [exact H0 | now apply mask_nonneg].
  - intros k Hk. rewrite set_bit_testbit, Hb by lia.
    destruct (Z.eqb_spec k (7 - r)); [lia | reflexivity].
Qed.

Lemma is_byte_clear v r : 0 <= r < 8 -> is_byte v = true ->
  is_byte (Z.land v (Z.lnot (Z.shiftr 0x80 r))) = true.
Proof.
  intros Hr Hv. apply is_byte_bits in Hv as [H0 Hb]. apply is_byte_bits. split.
  - apply Z.land_nonneg. now left.
  - intros k Hk. rewrite clear_bit_testbit, Hb by lia. reflexivity.
Qed.

Lemma bytes_ok_lookup d n v :
  bytes_ok d = true -> frame_buffer d !! n = Some v -> is_byte v = true.
Proof.
  unfold bytes_ok. rewrite forallb_forall. intros H Hl. apply H.
  apply list_elem_of_In. now apply list_elem_of_lookup_2 in Hl.
Qed.

Lemma bytes_ok_insert d n v :
  bytes_ok d = true -> is_byte v = true ->
  bytes_ok (with_frame_buffer (<[n:=v]> (frame_buffer d)) d) = true.
Proof.
  unfold bytes_ok. simpl. rewrite !forallb_forall. intros H Hv u Hu.
  apply list_elem_of_In, list_elem_of_lookup in Hu as [i Hi].
  destruct (decide (n = i)) as [->|Hne].
  - destruct (decide (i < length (frame_buffer d))%nat) as [Hlt|Hge].
    + rewrite list_lookup_insert_eq in Hi by assumption. now injection Hi as <-.
    + rewrite list_insert_ge in Hi by lia.
      apply H, list_elem_of_In. now apply list_elem_of_lookup_2 in Hi.
  - rewrite list_lookup_insert_ne in Hi by assumption.
    apply H, list_elem_of_In. now apply list_elem_of_lookup_2 in Hi.
Qed.

Lemma keeps_bytes_ret {A} (a : A) : keeps_bytes (mret a).
Proof. intros m a' m' o H E. injection E as _ <- _. exact H. Qed.

Lemma keeps_bytes_bind {A B} (c : M A) (f : A -> M B) :
  keeps_bytes c -> (forall a, keeps_bytes (f a)) -> keeps_bytes (c ≫= f).
Proof.
  intros Hc Hf m b m' o H. rewrite bind_run.
  destruct (c m) as [a m1 o1| |] eqn:E1; try discriminate.
  destruct (f a m1) as [b' m2 o2| |] eqn:E2; try discriminate.
  simpl. intros E. injection E as _ <- _.
  exact (Hf _ _ _ _ _ (Hc _ _ _ _ H E1) E2).
Qed.

Lemma keeps_bytes_for_each {A} (l : list A) (body : A -> M unit) :
  (forall x, keeps_bytes (body x)) -> keeps_bytes (for_each l body).
Proof.
  intros Hb. unfold for_each. generalize tt. induction l as [|x l IH]; intros u.
  - apply keeps_bytes_ret.
  - simpl. apply keeps_bytes_bind; [apply Hb | exact IH].
Qed.

Lemma keeps_bytes_getattr {A} (f : EPD4in2v2 -> A) : keeps_bytes (getattr f).
Proof. intros m a m' o H E. injection E as _ <- _. exact H. Qed.

Lemma keeps_bytes_plot qx idxj p : keeps_bytes (plot qx idxj p).
Proof.
  assert (Hr : 0 <= qx `mod` 8 < 8) by (apply Z.mod_pos_bound; lia).
  assert (Hstep : forall (g : Z -> Z),
    (forall v, is_byte v = true -> is_byte (g v) = true) ->
    keeps_bytes (v ← fb_get (qx `div` 8 + idxj); fb_set (qx `div` 8 + idxj) (g v))).
  { intros g Hg m a m' o H. rewrite bind_run. unfold fb_get, fb_set.
    destruct (Py.index _ _) as [n|] eqn:Hn; [|discriminate].
    destruct (frame_buffer (self m) !! n) as [v|] eqn:Hl; [|discriminate].
    simpl. rewrite Hn. simpl. intros E. injection E as _ <- _. simpl.
    apply bytes_ok_insert; [exact H|]. apply Hg. exact (bytes_ok_lookup _ _ _ H Hl). }
  unfold plot. destruct (negb (p =? 0)).
  - apply (Hstep (fun v => Z.lor v (Z.shiftr 0x80 (qx `mod` 8)))).
    intros v. now apply is_byte_set.
  - apply (Hstep (fun v => Z.land v (Z.lnot (Z.shiftr 0x80 (qx `mod` 8))))).
    intros v. now apply is_byte_clear.
Qed.

Lemma keeps_bytes_set_frame_buffer x y B : keeps_bytes (set_frame_buffer x y B).
Proof.
  unfold set_frame_buffer. destruct (Image.size B) as [imwidth imheight].
  apply keeps_bytes_for_each. intros j.
  apply keeps_bytes_bind; [apply keeps_bytes_getattr|]. intros w.
  apply keeps_bytes_for_each. intros i.
  apply (keeps_bytes_plot (x + i) (((y + j) * w) `div` 8) (Image.load B i j)).
Qed.

(** X5.  Whenever a merge returns, wherever the bitmap was placed, a mirror
    of bytes is still a mirror of bytes. *)
Theorem merge_keeps_bytes m x y B a m' o :
  bytes_ok (self m) = true ->
  set_frame_buffer x y B m = Done a m' o ->
  bytes_ok (self m') = true.
Proof. apply keeps_bytes_set_frame_buffer. Qed.

Lemma merge_keeps_bytes_witness :
  bytes_ok (self (power_on [])) = true /\
  exists m',
    set_frame_buffer 3 1 (Image.solid (2, 1) 0) (power_on []) = Done tt m' [] /\
    bytes_ok (self m') = true.
Proof.
  split; [vm_compute; reflexivity|].
  eexists. split; [vm_compute; reflexivity|].
  apply (merge_keeps_bytes (power_on []) 3 1 (Image.solid (2, 1) 0) tt _ []);
    vm_compute; reflexivity.
Defined.

(* ===================================================================== *)
(** ** Merging what is already there *)

Lemma for_each_fix {A} l (body : A -> M unit) m :
  (forall x, x ∈ l -> body x m = Done tt m []) -> for_each l body m = Done tt m [].
Proof.
  induction l as [|x l IH]; intros Hb; [reflexivity|].
  rewrite for_each_cons, bind_run, Hb by (now left). cbv beta iota.
  rewrite IH; [reflexivity|]. intros x' Hx'. apply Hb. now right.
Qed.

Lemma set_mirror_same m : set_mirror (frame_buffer (self m)) m = m.
Proof. destruct m as [[] ?]. reflexivity. Qed.

Lemma lor_mask_set v r :
  0 <= r < 8 -> Z.testbit v (7 - r) = true -> Z.lor v (Z.shiftr 0x80 r) = v.
Proof.
  intros Hr Hb. apply Z.bits_inj'. intros k Hk. rewrite set_bit_testbit by lia.
  destruct (Z.eqb_spec k (7 - r)) as [->|]; [now rewrite Hb | apply orb_false_r].
Qed.

Lemma land_mask_clear v r :
  0 <= r < 8 -> Z.testbit v (7 - r) = false -> Z.land v (Z.lnot (Z.shiftr 0x80 r)) = v.
Proof.
  intros Hr Hb. apply Z.bits_inj'. intros k Hk. rewrite clear_bit_testbit by lia.
  destruct (Z.eqb_spec k (7 - r)) as [->|]; [now rewrite Hb | apply andb_true_r].
Qed.

(** Plotting a pixel that already has the value plotted changes nothing. *)
Lemma plot_same m qx qy p :
  wf (self m) -> 0 <= qx < width (self m) -> 0 <= qy < height (self m) ->
  mirror_bit (self m) qx qy = negb (p =? 0) ->
  plot qx ((qy * width (self m)) `div` 8) p m = Done tt m [].
Proof.
  intros (Hw & H8 & Hh & Hlen) Hqx Hqy Hbit.
  pose proof (byte_index_range _ _ _ _ Hw H8 Hqx Hqy) as R.
  assert (Hr : 0 <= qx `mod` 8 < 8) by (apply Z.mod_pos_bound; lia).
  destruct (lookup_lt_is_Some_2 (frame_buffer (self m))
              (Z.to_nat (byte_index (width (self m)) qx qy))) as [v Hv]; [lia|].
  unfold mirror_bit, mirror_byte, bit_index in Hbit. rewrite Hv in Hbit. simpl in Hbit.
  assert (Hput : forall u, u = v ->
    fb_set (byte_index (width (self m)) qx qy) u m = Done tt m []).
  { intros u ->. rewrite fb_set_in_range by lia.
    rewrite (list_insert_id _ _ _ Hv). now rewrite set_mirror_same. }
  unfold plot. fold (byte_index (width (self m)) qx qy).
  destruct (negb (p =? 0)).
  - erewrite bind_done by (apply fb_get_in_range; lia).
    rewrite prepend_nil, Hv. simpl. apply Hput. now apply lor_mask_set.
  - erewrite bind_done by (apply fb_get_in_range; lia).
    rewrite prepend_nil, Hv. simpl. apply Hput. now apply land_mask_clear.
Qed.

(** A merge of a bitmap the mirror already shows changes nothing. *)
Lemma merge_same m x y B :
  wf (self m) ->
  0 <= x -> x + fst (Image.size B) <= width (self m) ->
  0 <= y -> y + snd (Image.size B) <= height (self m) ->
  (forall i j, 0 <= i < fst (Image.size B) -> 0 <= j < snd (Image.size B) ->
     mirror_bit (self m) (x + i) (y + j) = Image.is_white (Image.load B i j)) ->
  set_frame_buffer x y B m = Done tt m [].
Proof.
  intros Hwf Hx Hxw Hy Hyh Hsame. unfold set_frame_buffer.
  destruct (Image.size B) as [imwidth imheight]. simpl in *.
  apply for_each_fix. intros j Hj. apply elem_of_range in Hj.
  rewrite bind_run, getattr_run. cbv beta iota. rewrite prepend_nil.
  apply for_each_fix. intros i Hi. apply elem_of_range in Hi.
  apply (plot_same m (x + i) (y + j) (Image.load B i j) Hwf); [lia | lia |].
  now apply Hsame.
Qed.

(** X6.  Merging is idempotent: the same bitmap merged again at the same
    place leaves the mirror exactly as the first merge left it. *)
Theorem merge_idempotent m x y B :
  wf (self m) ->
  0 <= x -> x + fst (Image.size B) <= width (self m) ->
  0 <= y -> y + snd (Image.size B) <= height (self m) ->
  exists m1,
    set_frame_buffer x y B m = Done tt m1 [] /\
    set_frame_buffer x y B m1 = Done tt m1 [].
Proof.
  intros Hwf Hx Hxw Hy Hyh.
  destruct (set_frame_buffer_run m x y B Hwf Hx Hxw Hy Hyh) as (fb & Hset & Hlen & Hbits).
  exists (set_mirror fb m). split; [exact Hset|].
  apply merge_same; try assumption.
  - now apply wf_set_mirror.
  - intros i j Hi Hj. simpl. rewrite Hbits by lia.
    rewrite !bool_decide_eq_true_2 by lia. simpl.
    now replace (x + i - x) with i by lia; replace (y + j - y) with j by lia.
Qed.

Lemma merge_idempotent_witness :
  wf (self (power_on [])) /\
  exists m1,
    set_frame_buffer 3 1 (Image.solid (2, 1) 0) (power_on []) = Done tt m1 [] /\
    set_frame_buffer 3 1 (Image.solid (2, 1) 0) m1 = Done tt m1 [].
Proof.
  split; [shape_by_compute|].
  apply (merge_idempotent (power_on []) 3 1 (Image.solid (2, 1) 0)).
  - shape_by_compute.
  - lia.
  - vm_compute; congruence.
  - lia.
  - vm_compute; congruence.
Defined.

(** X7.  On a panel of a size [Image.new] accepts, reading the mirror back
    and merging the image read at the origin leaves the mirror exactly as it
    was: the read-back is a right inverse of the merge on the whole panel. *)
Theorem toBitmap_then_merge_is_identity m :
  wf (self m) ->
  Image.size_ok (width (self m), height (self m)) = true ->
  exists im,
    frame_buffer_to_image m = Done im m [] /\
    set_frame_buffer 0 0 im m = Done tt m [].
Proof.
  intros Hwf Hok.
  destruct (frame_buffer_to_image_run m Hwf Hok) as (im & Hget & Hsz & Hpix).
  exists im. split; [exact Hget|].
  apply merge_same; rewrite ?Hsz; simpl; try lia; try assumption.
  intros i j Hi Hj. rewrite !Z.add_0_l, Hpix by assumption.
  symmetry. apply mask_pixel_white.
Qed.

Lemma toBitmap_then_merge_is_identity_witness :
  wf (self (power_on [])) /\
  Image.size_ok (400, 300) = true /\
  exists im,
    frame_buffer_to_image (power_on []) = Done im (power_on []) [] /\
    set_frame_buffer 0 0 im (power_on []) = Done tt (power_on []) [].
Proof.
  split; [shape_by_compute | split; [reflexivity|]].
  apply (toBitmap_then_merge_is_identity (power_on [])); [shape_by_compute | reflexivity].
Defined.

(** X8.  Two merges in a row: where the rectangles overlap the second
    bitmap decides, in the rest of the first rectangle the first bitmap,
    and everywhere else the mirror is as before. *)
Theorem later_merge_wins m x1 y1 B1 x2 y2 B2 :
  wf (self m) ->
  0 <= x1 -> x1 + fst (Image.size B1) <= width (self m) ->
  0 <= y1 -> y1 + snd (Image.size B1) <= height (self m) ->
  0 <= x2 -> x2 + fst (Image.size B2) <= width (self m) ->
  0 <= y2 -> y2 + snd (Image.size B2) <= height (self m) ->
  exists fb,
    (set_frame_buffer x1 y1 B1;; set_frame_buffer x2 y2 B2) m
      = Done tt (set_mirror fb m) [] /\
    forall px py, 0 <= px < width (self m) -> 0 <= py < height (self m) ->
      mirror_bit (with_frame_buffer fb (self m)) px py
      = if in_rect x2 y2 B2 px py
        then Image.is_white (Image.load B2 (px - x2) (py - y2))
        else if in_rect x1 y1 B1 px py
        then Image.is_white (Image.load B1 (px - x1) (py - y1))
        else mirror_bit (self m) px py.
Proof.
  intros Hwf Hx1 Hxw1 Hy1 Hyh1 Hx2 Hxw2 Hy2 Hyh2.
  destruct (set_frame_buffer_run m x1 y1 B1 Hwf Hx1 Hxw1 Hy1 Hyh1)
    as (fb1 & Hset1 & Hlen1 & Hbits1).
  assert (Hwf1 : wf (self (set_mirror fb1 m))) by now apply wf_set_mirror.
  destruct (set_frame_buffer_run (set_mirror fb1 m) x2 y2 B2 Hwf1 Hx2 Hxw2 Hy2 Hyh2)
    as (fb & Hset & Hlen & Hbits).
  exists fb. split.
  - rewrite bind_run, Hset1. cbv beta iota. rewrite prepend_nil. exact Hset.
  - intros px py Hpx Hpy.
    transitivity (mirror_bit (with_frame_buffer fb (self (set_mirror fb1 m))) px py);
      [reflexivity|].
    rewrite (Hbits px py Hpx Hpy).
    change (self (set_mirror fb1 m)) with (with_frame_buffer fb1 (self m)).
    rewrite (Hbits1 px py Hpx Hpy). reflexivity.
Qed.

Lemma later_merge_wins_witness :
  wf (self (power_on [])) /\
  exists fb,
    (set_frame_buffer 0 0 (Image.solid (4, 4) 0);;
     set_frame_buffer 2 2 (Image.solid (4, 4) 255)) (power_on [])
      = Done tt (set_mirror fb (power_on [])) [] /\
    forall px py, 0 <= px < 400 -> 0 <= py < 300 ->
      mirror_bit (with_frame_buffer fb (self (power_on []))) px py
      = if in_rect 2 2 (Image.solid (4, 4) 255) px py
        then Image.is_white (Image.load (Image.solid (4, 4) 255) (px - 2) (py - 2))
        else if in_rect 0 0 (Image.solid (4, 4) 0) px py
        then Image.is_white (Image.load (Image.solid (4, 4) 0) (px - 0) (py - 0))
        else mirror_bit (self (power_on [])) px py.
Proof.
  split; [shape_by_compute|].
  apply (later_merge_wins (power_on []) 0 0 (Image.solid (4, 4) 0) 2 2 (Image.solid (4, 4) 255));
    try lia; try shape_by_compute; vm_compute; congruence.
Defined.

(* ===================================================================== *)
(** ** The image read back *)

Lemma land_mask_value v r :
  0 <= r < 8 ->
  Z.land v (Z.shiftr 0x80 r) = if Z.testbit v (7 - r) then Z.shiftr 0x80 r else 0.
Proof.
  intros Hr. destruct (Z.testbit v (7 - r)) eqn:Hb.
  - apply Z.bits_inj'. intros k Hk. rewrite Z.land_spec, mask_testbit by lia.
    destruct (Z.eqb_spec k (7 - r)) as [->|]; [now rewrite Hb | apply andb_false_r].
  - apply Z.eqb_eq. rewrite land_mask_eq0 by assumption. now rewrite Hb.
Qed.

Lemma mask_range r : 0 <= r < 8 -> 1 <= Z.shiftr 0x80 r <= 128.
Proof.
  intros Hr.
  assert (r = 0 \/ r = 1 \/ r = 2 \/ r = 3 \/ r = 4 \/ r = 5 \/ r = 6 \/ r = 7) as H by lia.
  destruct H as [->|[->|[->|[->|[->|[->|[->| ->]]]]]]]; vm_compute; split; congruence.
Qed.

(** X9.  On a panel of a size [Image.new] accepts,
    [frame_buffer_to_image()] touches neither the mirror nor the
    board, and the pixel it stores at (i, j) is the mask [0x80 >> (i mod 8)]
    for a set bit and 0 for a clear one: the white pixels of the image
    returned hold 128, 64, ..., 1 and never the 255 of the colour white. *)
Theorem toBitmap_pixel_values m :
  wf (self m) ->
  Image.size_ok (width (self m), height (self m)) = true ->
  exists im,
    frame_buffer_to_image m = Done im m [] /\
    forall i j, 0 <= i < width (self m) -> 0 <= j < height (self m) ->
      Image.load im i j
        = (if mirror_bit (self m) i j then Z.shiftr 0x80 (i `mod` 8) else 0) /\
      0 <= Image.load im i j <= 128 /\
      Image.load im i j <> Image.white.
Proof.
  intros Hwf Hok.
  destruct (frame_buffer_to_image_run m Hwf Hok) as (im & Hget & Hsz & Hpix).
  exists im. split; [exact Hget|]. intros i j Hi Hj.
  assert (Hr : 0 <= i `mod` 8 < 8) by (apply Z.mod_pos_bound; lia).
  pose proof (mask_range _ Hr) as Hm.
  rewrite Hpix by assumption. rewrite land_mask_value by assumption.
  unfold mirror_bit, bit_index, Image.white.
  destruct (Z.testbit _ _); (split; [reflexivity | lia]).
Qed.

Lemma toBitmap_pixel_values_witness :
  wf (self (power_on [])) /\
  Image.size_ok (400, 300) = true /\
  exists im,
    frame_buffer_to_image (power_on []) = Done im (power_on []) [] /\
    forall i j, 0 <= i < 400 -> 0 <= j < 300 ->
      Image.load im i j
        = (if mirror_bit (self (power_on [])) i j then Z.shiftr 0x80 (i `mod` 8) else 0) /\
      0 <= Image.load im i j <= 128 /\
      Image.load im i j <> Image.white.
Proof.
  split; [shape_by_compute | split; [reflexivity|]].
  apply (toBitmap_pixel_values (power_on [])); [shape_by_compute | reflexivity].
Defined.

(* ===================================================================== *)
(** ** The busy-wait gate *)

(** X10.  [wait_until_idle()] has no timeout: it returns exactly when the
    BUSY line shows a level other than 1, having read the line up to and
    including that level and slept 20 ms after every busy read; on a line
    that stays at 1 it is still polling when the levels run out. *)
Theorem wait_until_idle_returns_iff_idle m :
  wait_until_idle m
  = (if goes_idle (busy_line (hw m))
     then Done tt (set_busy (after_idle (busy_line (hw m))) m) (polls (busy_line (hw m)))
     else Polling) /\
  (forall n rest,
     busy_line (hw m) = replicate n 1 ++ rest -> goes_idle rest = true ->
     polls (busy_line (hw m))
     = concat (replicate n [DigitalRead BUSY_PIN 1; DelayMs 20]) ++ polls rest /\
     after_idle (busy_line (hw m)) = after_idle rest).
Proof.
  split.
  - destruct (goes_idle (busy_line (hw m))) eqn:H.
    + now apply wait_until_idle_run.
    + unfold wait_until_idle. now apply (wait_loop_stuck (busy_line (hw m))).
  - intros n rest -> _. induction n as [|n [IH1 IH2]]; [now split|].
    simpl. rewrite IH1, IH2. now split.
Qed.

(* ===================================================================== *)
(** ** Commands and settings on the bus *)

(** X11.  [set_setting(command, data)] leaves the machine as it is, and the
    controller receives the command byte followed by the data bytes,
    whatever the levels of the select lines before; a single integer is
    sent exactly as the one-element list holding it. *)
Theorem set_setting_frames command ds m :
  (exists out,
     set_setting command (PList ds) m = Done tt m out /\
     spi_bytes out = command :: ds /\
     forall dc cs, controller_view dc cs out = Command command :: map Data ds) /\
  (forall d, set_setting command (PInt d) m = set_setting command (PList [d]) m).
Proof.
  split; [|reflexivity].
  exists (command_events command ++ data_events ds). split; [|split].
  - unfold set_setting. rewrite bind_run, send_command_run. cbv beta iota.
    now rewrite send_data_list_run.
  - unfold data_events. simpl. f_equal.
    induction ds as [|d ds IH]; [reflexivity|]. simpl. now rewrite IH.
  - intros dc cs. rewrite view_command.
    rewrite <- (app_nil_r (data_events ds)), view_data. simpl. now rewrite app_nil_r.
Qed.

Lemma land_ff v : Z.land v 0xff = v `mod` 256.
Proof. change 0xff with (Z.ones 8). now rewrite Z.land_ones by lia. Qed.

(** X12.  [set_resolution()] sends the resolution opcode with four data
    bytes, width high, width low, height high, height low; for dimensions
    below 65536 the two byte pairs give the width and the height back. *)
Theorem set_resolution_round_trip opcode m :
  0 <= width (self m) < 65536 -> 0 <= height (self m) < 65536 ->
  exists wh wl hh hl out,
    set_resolution opcode m = Done tt m out /\
    (forall dc cs,
       controller_view dc cs out = [Command opcode; Data wh; Data wl; Data hh; Data hl]) /\
    is_byte wh = true /\ is_byte wl = true /\ is_byte hh = true /\ is_byte hl = true /\
    wh * 256 + wl = width (self m) /\ hh * 256 + hl = height (self m).
Proof.
  intros Hw Hh.
  exists (Z.land (Z.shiftr (width (self m)) 8) 0xff), (Z.land (width (self m)) 0xff),
         (Z.land (Z.shiftr (height (self m)) 8) 0xff), (Z.land (height (self m)) 0xff).
  eexists. split; [reflexivity|]. split; [intros dc cs; reflexivity|].
  rewrite !land_ff, !Z.shiftr_div_pow2 by lia. change (2 ^ 8) with 256.
  pose proof (Z.mod_pos_bound (width (self m)) 256 ltac:(lia)).
  pose proof (Z.mod_pos_bound (height (self m)) 256 ltac:(lia)).
  pose proof (Z.mod_pos_bound (width (self m) `div` 256) 256 ltac:(lia)).
  pose proof (Z.mod_pos_bound (height (self m) `div` 256) 256 ltac:(lia)).
  assert (0 <= width (self m) `div` 256 < 256)
    by (split; [apply Z.div_pos; lia | apply Z.div_lt_upper_bound; lia]).
  assert (0 <= height (self m) `div` 256 < 256)
    by (split; [apply Z.div_pos; lia | apply Z.div_lt_upper_bound; lia]).
  rewrite (Z.mod_small (width (self m) `div` 256)) by assumption.
  rewrite (Z.mod_small (height (self m) `div` 256)) by assumption.
  pose proof (Z.div_mod (width (self m)) 256 ltac:(lia)).
  pose proof (Z.div_mod (height (self m)) 256 ltac:(lia)).
  unfold is_byte. repeat split; try lia;
    (apply andb_true_iff; split; [apply Z.leb_le | apply Z.ltb_lt]; lia).
Qed.

Lemma set_resolution_round_trip_witness :
  0 <= width (self (power_on [])) < 65536 /\
  0 <= height (self (power_on [])) < 65536 /\
  exists wh wl hh hl out,
    set_resolution 0x61 (power_on []) = Done tt (power_on []) out /\
    (forall dc cs,
       controller_view dc cs out = [Command 0x61; Data wh; Data wl; Data hh; Data hl]) /\
    is_byte wh = true /\ is_byte wl = true /\ is_byte hh = true /\ is_byte hl = true /\
    wh * 256 + wl = 400 /\ hh * 256 + hl = 300.
Proof.
  split; [vm_compute; split; congruence|]. split; [vm_compute; split; congruence|].
  apply (set_resolution_round_trip 0x61 (power_on [])); vm_compute; split; congruence.
Defined.

(* ===================================================================== *)
(** ** What never touches the driver object *)

Lemma keeps_self_ret {A} (a : A) : keeps_self (mret a).
Proof. intros m a' m' o E. now injection E as _ <- _. Qed.

Lemma keeps_self_bind {A B} (c : M A) (f : A -> M B) :
  keeps_self c -> (forall a, keeps_self (f a)) -> keeps_self (c ≫= f).
Proof.
  intros Hc Hf m b m' o. rewrite bind_run.
  destruct (c m) as [a m1 o1| |] eqn:E1; try discriminate.
  destruct (f a m1) as [b' m2 o2| |] eqn:E2; try discriminate.
  simpl. intros E. injection E as _ <- _.
  rewrite (Hf _ _ _ _ _ E2). exact (Hc _ _ _ _ E1).
Qed.

Lemma keeps_self_for_in {A S} (l : list A) (body : A -> S -> M S) :
  (forall x acc, keeps_self (body x acc)) -> forall acc, keeps_self (for_in l body acc).
Proof.
  intros Hb. induction l as [|x l IH]; intros acc.
  - apply keeps_self_ret.
  - simpl. apply keeps_self_bind; [apply Hb | exact IH].
Qed.

Lemma keeps_self_for_each {A} (l : list A) (body : A -> M unit) :
  (forall x, keeps_self (body x)) -> keeps_self (for_each l body).
Proof. intros Hb. apply keeps_self_for_in. intros x _. apply Hb. Qed.

Lemma keeps_self_emit e : keeps_self (emit e).
Proof. intros m a m' o E. now injection E as _ <- _. Qed.

Lemma keeps_self_getattr {A} (f : EPD4in2v2 -> A) : keeps_self (getattr f).
Proof. intros m a m' o E. now injection E as _ <- _. Qed.

Lemma keeps_self_fb_get k : keeps_self (fb_get k).
Proof.
  intros m a m' o. unfold fb_get.
  destruct (Py.index _ k); [|discriminate].
  destruct (_ !! _); [|discriminate]. intros E. now injection E as _ <- _.
Qed.

Lemma keeps_self_digital_read p : keeps_self (digital_read p).
Proof.
  intros m a m' o. unfold digital_read.
  destruct (busy_line _); [discriminate|]. intros E. now injection E as _ <- _.
Qed.

Lemma keeps_self_epd_init : keeps_self epd_init.
Proof. intros m a m' o E. now injection E as _ <- _. Qed.

Lemma keeps_self_returned {A} (r : exn + A) : keeps_self (returned r).
Proof.
  intros m a m' o. unfold returned.
  destruct r; [discriminate|]. intros E. now injection E as _ <- _.
Qed.

Create HintDb self.
#[local] Hint Resolve keeps_self_ret keeps_self_emit keeps_self_getattr keeps_self_fb_get
  keeps_self_digital_read keeps_self_epd_init keeps_self_returned : self.

Ltac same_self :=
  repeat first
    [ solve [auto with self]
    | apply keeps_self_bind; [|intros ?]
    | apply keeps_self_for_each; intros ?
    | apply keeps_self_for_in; intros ? ?
    | match goal with |- keeps_self (if ?b then _ else _) => destruct b end
    | match goal with |- keeps_self (match ?p with PInt _ => _ | PList _ => _ end) =>
        destruct p end ].

Lemma keeps_self_send_command c : keeps_self (send_command c).
Proof. unfold send_command, digital_write, spi_transfer. same_self. Qed.

Lemma keeps_self_send_data d : keeps_self (send_data d).
Proof. unfold send_data, digital_write, spi_transfer. same_self. Qed.

Lemma keeps_self_wait_loop turns : keeps_self (wait_loop turns).
Proof.
  induction turns as [|n IH]; [intros m a m' o E; discriminate|].
  simpl. unfold delay_ms. same_self.
Qed.

Lemma keeps_self_wait_until_idle : keeps_self wait_until_idle.
Proof. intros m a m' o E. exact (keeps_self_wait_loop _ _ _ _ _ E). Qed.

Lemma keeps_self_reset : keeps_self reset.
Proof. unfold reset, digital_write, delay_ms. same_self. Qed.

#[local] Hint Resolve keeps_self_send_command keeps_self_send_data
  keeps_self_wait_until_idle keeps_self_reset : self.

Lemma keeps_self_clear : keeps_self clear.
Proof. unfold clear, turn_on_display. same_self. Qed.

Lemma keeps_self_display_full : keeps_self display_full.
Proof. unfold display_full, turn_on_display. same_self. Qed.

Lemma keeps_self_display_partial : keeps_self display_partial.
Proof. unfold display_partial, turn_on_display_partial. same_self. Qed.

(** X13.  Only the merge writes the mirror: whenever [clear], [display_full],
    [display_partial], [sleep], [reset], [wait_until_idle], the four
    activation variants, [set_resolution] or [frame_buffer_to_image]
    return, the driver object (dimensions, mode flags, mirror) is what it
    was. *)
Theorem refresh_keeps_driver_object :
  keeps_self clear /\ keeps_self display_full /\ keeps_self display_partial /\
  keeps_self sleep /\ keeps_self reset /\ keeps_self wait_until_idle /\
  keeps_self turn_on_display /\ keeps_self turn_on_display_fast /\
  keeps_self turn_on_display_partial /\ keeps_self turn_on_display_4gray /\
  (forall opcode, keeps_self (set_resolution opcode)) /\
  keeps_self frame_buffer_to_image.
Proof.
  split; [apply keeps_self_clear|]. split; [apply keeps_self_display_full|].
  split; [apply keeps_self_display_partial|].
  split; [unfold sleep; same_self|]. split; [apply keeps_self_reset|].
  split; [apply keeps_self_wait_until_idle|].
  split; [unfold turn_on_display; same_self|].
  split; [unfold turn_on_display_fast; same_self|].
  split; [unfold turn_on_display_partial; same_self|].
  split; [unfold turn_on_display_4gray; same_self|].
  split; [intros opcode; unfold set_resolution, set_setting; same_self|].
  unfold frame_buffer_to_image. same_self.
Qed.

(** X14.  Whenever [init] or [init_fast] returns, with -1 or after the whole
    sequence, the driver object is the one it was given with the two mode
    flags set: dimensions and mirror are not touched, and a failed bring-up
    has still recorded the flags. *)
Theorem init_sets_only_the_mode p g m r m' o :
  init p g m = Done r m' o \/ init_fast p g m = Done r m' o ->
  self m' = with_mode p g (self m).
Proof.
  assert (Hupd : forall (c : M (option Z)), keeps_self c ->
    (update (with_mode p g);; c) m = Done r m' o -> self m' = with_mode p g (self m)).
  { intros c Hc. rewrite bind_run.
    change (update (with_mode p g) m)
      with (Done tt {| self := with_mode p g (self m); hw := hw m |} []).
    cbv beta iota. rewrite prepend_nil. intros E. exact (Hc _ _ _ _ E). }
  intros [E|E]; revert E; apply Hupd; same_self; apply keeps_self_clear.
Qed.

Lemma init_sets_only_the_mode_witness :
  exists m' o,
    init_fast true false (power_on [0; 0; 0; 0]) = Done None m' o /\
    self m' = with_mode true false (self (power_on [0; 0; 0; 0])).
Proof.
  eexists _, _.
  assert (E : init_fast true false (power_on [0; 0; 0; 0])
              = Done None (on_board (with_mode true false __init__) [])
                  (match init_fast true false (power_on [0; 0; 0; 0]) with
                   | Done _ _ o => o | _ => [] end)) by (vm_compute; reflexivity).
  split; [exact E|].
  apply (init_sets_only_the_mode true false (power_on [0; 0; 0; 0]) None _ _ (or_intror E)).
Defined.

(** X15.  When the transport bring-up answers with a status other than 0,
    [init] and [init_fast] return -1 right away: the board has seen the
    bring-up and nothing else, no reset pulse and no command. *)
Theorem init_fails_on_bring_up p g m :
  bring_up (hw m) <> 0 ->
  init p g m
  = Done (Some (-1)) {| self := with_mode p g (self m); hw := hw m |}
      [EpdInit (bring_up (hw m))] /\
  init_fast p g m
  = Done (Some (-1)) {| self := with_mode p g (self m); hw := hw m |}
      [EpdInit (bring_up (hw m))].
Proof.
  intros H. apply Z.eqb_neq in H.
  split; unfold init, init_fast; rewrite bind_run;
    change (update (with_mode p g) m)
      with (Done tt {| self := with_mode p g (self m); hw := hw m |} []);
    cbv beta iota; rewrite prepend_nil, bind_run;
    change (epd_init {| self := with_mode p g (self m); hw := hw m |})
      with (Done (bring_up (hw m)) {| self := with_mode p g (self m); hw := hw m |}
              [EpdInit (bring_up (hw m))]);
    cbv beta iota; rewrite H; reflexivity.
Qed.

Lemma init_fails_on_bring_up_witness :
  bring_up (hw {| self := __init__; hw := {| busy_line := [0]; bring_up := -1 |} |}) <> 0 /\
  init true false {| self := __init__; hw := {| busy_line := [0]; bring_up := -1 |} |}
  = Done (Some (-1))
      {| self := with_mode true false __init__;
         hw := {| busy_line := [0]; bring_up := -1 |} |}
      [EpdInit (-1)].
Proof.
  split; [vm_compute; congruence|].
  apply (init_fails_on_bring_up true false
           {| self := __init__; hw := {| busy_line := [0]; bring_up := -1 |} |}).
  vm_compute; congruence.
Defined.

(* ===================================================================== *)
(** ** Drawing *)

Lemma spi_bytes_app a b : spi_bytes (a ++ b) = spi_bytes a ++ spi_bytes b.
Proof.
  induction a as [|e a IH]; [reflexivity|].
  destruct e; simpl; rewrite IH; try reflexivity. now rewrite app_assoc.
Qed.

Lemma spi_bytes_data ds : spi_bytes (data_events ds) = ds.
Proof.
  unfold data_events. simpl.
  induction ds as [|d ds IH]; [reflexivity|]. simpl. now rewrite IH.
Qed.

Lemma spi_bytes_polls busy : spi_bytes (polls busy) = [].
Proof.
  induction busy as [|v busy IH]; [reflexivity|]. simpl.
  destruct (v =? 1); [exact IH | reflexivity].
Qed.

Lemma display_partial_out m :
  goes_idle (busy_line (hw m)) = true ->
  display_partial m
  = Done tt (set_busy (after_idle (busy_line (hw m))) m)
      ((partial_head ++ command_events 0x24 ++ data_events (frame_buffer (self m))
        ++ command_events 0x22 ++ data_events [0xFF] ++ command_events 0x20)
       ++ polls (busy_line (hw m))).
Proof.
  intros H. unfold display_partial. do 23 run_step.
  rewrite (turn_on_display_partial_run m H). cbn [prepend]. unfold partial_head.
  repeat rewrite <- app_assoc. reflexivity.
Qed.

(** A draw inside the panel on a line that goes idle returns; what it hands
    to the bus is bytes as long as the mirror is. *)
Lemma draw_returns m x y image :
  wf (self m) ->
  0 <= x -> x + fst (Image.size image) <= width (self m) ->
  0 <= y -> y + snd (Image.size image) <= height (self m) ->
  goes_idle (busy_line (hw m)) = true ->
  exists fb o,
    set_frame_buffer x y image m = Done tt (set_mirror fb m) [] /\
    length fb = length (frame_buffer (self m)) /\
    (forall px py, 0 <= px < width (self m) -> 0 <= py < height (self m) ->
      mirror_bit (with_frame_buffer fb (self m)) px py
      = if in_rect x y image px py
        then Image.is_white (Image.load image (px - x) (py - y))
        else mirror_bit (self m) px py) /\
    draw x y image m
    = Done tt (set_busy (after_idle (busy_line (hw m))) (set_mirror fb m)) o /\
    (forallb is_byte fb = true -> forallb is_byte (spi_bytes o) = true).
Proof.
  intros Hwf Hx Hxw Hy Hyh H.
  destruct (draw_merge_then_refresh m x y image Hwf Hx Hxw Hy Hyh)
    as (fb & Hset & Hlen & Hbits & Hdraw).
  exists fb. destruct (Py.truth (partial_refresh (self m))).
  - eexists. split; [exact Hset|]. split; [exact Hlen|]. split; [exact Hbits|].
    split; [rewrite Hdraw; apply (display_partial_out (set_mirror fb m) H)|].
    intros Hb. rewrite !spi_bytes_app, !spi_bytes_data, spi_bytes_polls.
    rewrite !forallb_app. simpl frame_buffer. rewrite Hb. reflexivity.
  - eexists. split; [exact Hset|]. split; [exact Hlen|]. split; [exact Hbits|].
    split; [rewrite Hdraw; apply (display_full_run (set_mirror fb m) H)|].
    intros Hb. rewrite !spi_bytes_app, !spi_bytes_data, spi_bytes_polls.
    rewrite !forallb_app. simpl frame_buffer. rewrite Hb. reflexivity.
Qed.

(** X16.  A [draw] of a bitmap inside the panel, on an initialised driver
    whose mirror holds bytes and a BUSY line that goes idle, returns; the
    mirror still holds bytes, and every value handed to [spi_transfer] is a
    byte. *)
Theorem draw_transfers_bytes m x y B p :
  wf (self m) ->
  0 <= x -> x + fst (Image.size B) <= width (self m) ->
  0 <= y -> y + snd (Image.size B) <= height (self m) ->
  partial_refresh (self m) = Some p ->
  goes_idle (busy_line (hw m)) = true ->
  bytes_ok (self m) = true ->
  exists m' o,
    draw x y B m = Done tt m' o /\
    bytes_ok (self m') = true /\
    forallb is_byte (spi_bytes o) = true.
Proof.
  intros Hwf Hx Hxw Hy Hyh Hp H Hb.
  destruct (draw_returns m x y B Hwf Hx Hxw Hy Hyh H)
    as (fb & o & Hset & _ & _ & Hdraw & Hbytes).
  pose proof (keeps_bytes_set_frame_buffer x y B _ _ _ _ Hb Hset) as Hb'.
  eexists _, o. split; [exact Hdraw|]. split; [exact Hb'|]. apply Hbytes. exact Hb'.
Qed.

Lemma draw_transfers_bytes_witness :
  wf (self (ready true [1; 0])) /\
  bytes_ok (self (ready true [1; 0])) = true /\
  exists m' o,
    draw 8 4 (Image.solid (2, 2) 0) (ready true [1; 0]) = Done tt m' o /\
    bytes_ok (self m') = true /\
    forallb is_byte (spi_bytes o) = true.
Proof.
  split; [shape_by_compute|]. split; [vm_compute; reflexivity|].
  apply (draw_transfers_bytes (ready true [1; 0]) 8 4 (Image.solid (2, 2) 0) true);
    try lia; try shape_by_compute; vm_compute; congruence.
Defined.

(** X17.  Before [init] the mode flag is the [None] the constructor left,
    which counts as false: a [draw] of a bitmap inside the panel merges the
    bitmap and runs [display_full()].  On a BUSY line that goes idle it
    returns, and the controller has received both RAM banks with the merged
    mirror and the full-update activation. *)
Theorem draw_before_init_is_full m x y B :
  wf (self m) ->
  0 <= x -> x + fst (Image.size B) <= width (self m) ->
  0 <= y -> y + snd (Image.size B) <= height (self m) ->
  partial_refresh (self m) = None ->
  goes_idle (busy_line (hw m)) = true ->
  exists fb m' body,
    set_frame_buffer x y B m = Done tt (set_mirror fb m) [] /\
    draw x y B m = display_full (set_mirror fb m) /\
    draw x y B m = Done tt m' (body ++ polls (busy_line (hw m))) /\
    self m' = with_frame_buffer fb (self m) /\
    forall dc cs,
      controller_view dc cs body
      = Command 0x24 :: map Data fb ++ Command 0x26 :: map Data fb
        ++ [Command 0x22; Data 0xF7; Command 0x20].
Proof.
  intros Hwf Hx Hxw Hy Hyh Hp H.
  destruct (draw_merge_then_refresh m x y B Hwf Hx Hxw Hy Hyh)
    as (fb & Hset & _ & _ & Hdraw).
  rewrite Hp in Hdraw. cbn [Py.truth] in Hdraw.
  destruct (display_full_frames (set_mirror fb m) H) as (body & Hrun & Hview).
  exists fb. eexists _, body. split; [exact Hset|]. split; [exact Hdraw|].
  split; [rewrite Hdraw; exact Hrun|]. split; [reflexivity | exact Hview].
Qed.

Lemma draw_before_init_is_full_witness :
  wf (self (power_on [0])) /\
  partial_refresh (self (power_on [0])) = None /\
  exists fb m' body,
    set_frame_buffer 0 0 (Image.solid (1, 1) 0) (power_on [0])
      = Done tt (set_mirror fb (power_on [0])) [] /\
    draw 0 0 (Image.solid (1, 1) 0) (power_on [0]) = display_full (set_mirror fb (power_on [0])) /\
    draw 0 0 (Image.solid (1, 1) 0) (power_on [0]) = Done tt m' (body ++ polls [0]) /\
    self m' = with_frame_buffer fb (self (power_on [0])) /\
    forall dc cs,
      controller_view dc cs body
      = Command 0x24 :: map Data fb ++ Command 0x26 :: map Data fb
        ++ [Command 0x22; Data 0xF7; Command 0x20].
Proof.
  split; [shape_by_compute|]. split; [reflexivity|].
  apply (draw_before_init_is_full (power_on [0]) 0 0 (Image.solid (1, 1) 0));
    try lia; try shape_by_compute; try reflexivity; vm_compute; congruence.
Defined.

(* ===================================================================== *)
(** ** Clearing and full refresh *)

Lemma ceil8_exact w : w `mod` 8 = 0 -> ceil8 w = w `div` 8.
Proof.
  intros H. unfold ceil8. pose proof (Z.div_mod w 8 ltac:(lia)) as Hd.
  symmetry. apply Z.div_unique with 7; lia.
Qed.

(** X18.  On a driver whose mirror is all 0xff, as after construction,
    [clear()] and [display_full()] are the same call: same outcome, same
    bytes on the bus. *)
Theorem clear_is_display_full_on_white m :
  wf (self m) ->
  frame_buffer (self m) = replicate (length (frame_buffer (self m))) 0xff ->
  clear m = display_full m.
Proof.
  intros (Hw & H8 & Hh & Hlen) Hfb.
  assert (HL : Py.list_mul 0xff (height (self m) * ceil8 (width (self m)))
               = frame_buffer (self m)).
  { rewrite Hfb. unfold Py.list_mul. f_equal.
    rewrite ceil8_exact by assumption. rewrite <- row_offset by assumption.
    replace (height (self m) * width (self m)) with (width (self m) * height (self m))
      by ring. lia. }
  unfold clear. do 2 run_step. rewrite linewidth_ceil by lia. rewrite HL.
  do 4 run_step.
  unfold display_full. do 6 run_step. now rewrite !prepend_nil.
Qed.

Lemma clear_is_display_full_on_white_witness :
  wf (self (power_on [1; 0])) /\
  clear (power_on [1; 0]) = display_full (power_on [1; 0]).
Proof.
  split; [shape_by_compute|].
  apply (clear_is_display_full_on_white (power_on [1; 0])).
  - shape_by_compute.
  - vm_compute; reflexivity.
Defined.

(* ===================================================================== *)
(** ** What fill leaves in the mirror *)

Lemma fill_tile_bounds h ts t :
  0 < ts -> 0 <= h -> t ∈ fill_tiles h ts ->
  0 <= fst t /\ 0 <= snd t /\ fst t + snd t <= h.
Proof.
  intros Hts Hh Ht. apply list_elem_of_lookup in Ht as [k Hk]. destruct t as [y th].
  apply fill_tiles_lookup in Hk as (-> & Hcase); try assumption. simpl.
  pose proof (Z.div_mod h ts ltac:(lia)) as Hd.
  pose proof (Z.mod_pos_bound h ts Hts) as Hm.
  destruct Hcase as [[Hlt ->]|(Heq & Hne & ->)]; nia.
Qed.

Lemma never_busy_cons v rest :
  never_busy (v :: rest) = true ->
  goes_idle (v :: rest) = true /\ after_idle (v :: rest) = rest /\ never_busy rest = true.
Proof.
  unfold never_busy. simpl. intros H. apply andb_true_iff in H as [Hv Hr].
  rewrite Hv. simpl. apply negb_true_iff in Hv. rewrite Hv. auto.
Qed.

(** Drawing solid tiles of full width one after the other paints their
    rows, and every draw takes one level off an idle line. *)
Lemma paint_tiles color W H : forall tiles m (S : Z -> Prop),
  wf (self m) -> width (self m) = W -> height (self m) = H ->
  never_busy (busy_line (hw m)) = true ->
  (length tiles <= length (busy_line (hw m)))%nat ->
  (forall t, t ∈ tiles -> 0 <= fst t /\ 0 <= snd t /\ fst t + snd t <= H) ->
  (forall px py, 0 <= px < W -> 0 <= py < H -> S py ->
     mirror_bit (self m) px py = Image.is_white color) ->
  exists m' o,
    for_each tiles (fun t => draw 0 (fst t) (Image.solid (W, snd t) color)) m = Done tt m' o /\
    wf (self m') /\ width (self m') = W /\ height (self m') = H /\
    busy_line (hw m') = drop (length tiles) (busy_line (hw m)) /\
    length (frame_buffer (self m')) = length (frame_buffer (self m)) /\
    forall px py, 0 <= px < W -> 0 <= py < H ->
      (S py \/ exists t, t ∈ tiles /\ fst t <= py < fst t + snd t) ->
      mirror_bit (self m') px py = Image.is_white color.
Proof.
  induction tiles as [|t tiles IH]; intros m S Hwf HW HH Hidle Hlen Hin Hpaint.
  - exists m, []. split; [reflexivity|]. do 3 (split; [assumption|]).
    do 2 (split; [reflexivity|]).
    intros px py Hpx Hpy [HS|(t & Ht & _)]; [now apply Hpaint | now apply elem_of_nil in Ht].
  - destruct (busy_line (hw m)) as [|v rest] eqn:Hbusy; [simpl in Hlen; lia|].
    destruct (never_busy_cons v rest Hidle) as (Hgo & Hafter & Hrest).
    destruct (Hin t ltac:(now left)) as (Hy & Hth & Hyh).
    destruct (draw_returns m 0 (fst t) (Image.solid (W, snd t) color) Hwf)
      as (fb & o1 & _ & Hlen1 & Hbits & Hdraw & _);
      simpl; try lia; try assumption; [now rewrite Hbusy|].
    rewrite Hbusy, Hafter in Hdraw.
    destruct (IH (set_busy rest (set_mirror fb m))
                 (fun py => S py \/ fst t <= py < fst t + snd t))
      as (m' & o & Hrun & Hwf' & HW' & HH' & Hbusy' & Hlen' & Hpaint');
      try assumption.
    { now apply (wf_set_mirror fb m). }
    { simpl in Hlen |- *. lia. }
    { intros t' Ht'. apply Hin. now right. }
    { intros px py Hpx Hpy HS. simpl. rewrite Hbits by lia.
      unfold in_rect. simpl.
      destruct HS as [HS|HS].
      - destruct (_ && _); [reflexivity | apply Hpaint; assumption].
      - rewrite !bool_decide_eq_true_2 by lia. reflexivity. }
    exists m', (o1 ++ o). split; [|do 3 (split; [assumption|]); split; [|split]].
    + rewrite for_each_cons, bind_run, Hdraw. cbv beta iota. now rewrite Hrun.
    + exact Hbusy'.
    + rewrite Hlen'. exact Hlen1.
    + intros px py Hpx Hpy Hcov. apply Hpaint'; try assumption.
      destruct Hcov as [HS|(t' & Ht' & Hc)]; [left; now left|].
      apply elem_of_cons in Ht' as [->|Ht']; [left; now right | right; eauto].
Qed.

(** A clipped colour is white exactly when the colour is positive. *)
Lemma is_white_clip8 color : Image.is_white (Image.clip8 color) = (0 <? color).
Proof.
  unfold Image.is_white, Image.clip8.
  destruct (Z.ltb_spec color 0), (Z.ltb_spec 255 color), (Z.ltb_spec 0 color);
    try lia; try reflexivity; apply negb_false_iff || apply negb_true_iff;
    apply Z.eqb_eq || apply Z.eqb_neq; lia.
Qed.

(** X19.  On a driver with an idle BUSY line that has a level left for
    every tile, [fill(color, tileHeight)] with 0 < tileHeight < 2^31
    returns, takes one level per draw call, and leaves every pixel of the
    mirror white for a positive colour and black for colour 0 and for a
    negative one, which [Image.new] clips to 0. *)
Theorem fill_paints_mirror m color ts :
  wf (self m) -> 0 < ts ->
  Image.size_ok (width (self m), ts) = true ->
  never_busy (busy_line (hw m)) = true ->
  (length (fill_tiles (height (self m)) ts) <= length (busy_line (hw m)))%nat ->
  exists m' o,
    fill color ts m = Done tt m' o /\
    wf (self m') /\
    width (self m') = width (self m) /\ height (self m') = height (self m) /\
    busy_line (hw m')
    = drop (length (fill_tiles (height (self m)) ts)) (busy_line (hw m)) /\
    forall px py, 0 <= px < width (self m) -> 0 <= py < height (self m) ->
      mirror_bit (self m') px py = (0 <? color).
Proof.
  intros Hwf Hts Hok Hidle Hlen. pose proof Hwf as (_ & _ & Hh & _).
  destruct (paint_tiles (Image.clip8 color) (width (self m)) (height (self m))
              (fill_tiles (height (self m)) ts) m (fun _ => False))
    as (m' & o & Hrun & Hwf' & HW' & HH' & Hbusy' & _ & Hpaint');
    try assumption; try reflexivity.
  { intros t Ht. now apply (fill_tile_bounds (height (self m)) ts). }
  { intros px py _ _ []. }
  exists m', o. split; [|do 4 (split; [assumption|])].
  - unfold fill. rewrite fill_with_solid; [exact Hrun | apply keeps_shape_draw | | ];
      assumption.
  - intros px py Hpx Hpy. rewrite <- is_white_clip8.
    apply Hpaint'; try assumption. right.
    destruct (tile_of_row (height (self m)) ts py Hts Hpy) as (y & th & Hk).
    exists (y, th). split; [now apply list_elem_of_lookup_2 in Hk|].
    apply (in_tile_iff (height (self m)) ts _ y th py Hts Hh Hk). now split.
Qed.

Lemma fill_paints_mirror_witness :
  wf (self (power_on [0; 0; 0])) /\
  Image.size_ok (width (self (power_on [0; 0; 0])), 100) = true /\
  never_busy (busy_line (hw (power_on [0; 0; 0]))) = true /\
  exists m' o,
    fill (-1) 100 (power_on [0; 0; 0]) = Done tt m' o /\
    wf (self m') /\
    width (self m') = 400 /\ height (self m') = 300 /\
    busy_line (hw m') = [] /\
    forall px py, 0 <= px < 400 -> 0 <= py < 300 ->
      mirror_bit (self m') px py = false.
Proof.
  split; [shape_by_compute|]. split; [reflexivity|]. split; [reflexivity|].
  apply (fill_paints_mirror (power_on [0; 0; 0]) (-1) 100).
  - shape_by_compute.
  - lia.
  - reflexivity.
  - reflexivity.
  - vm_compute. lia.
Defined.

(** X20.  The edges of [fill]: a tile height of 0 raises
    [ZeroDivisionError], a negative one [ValueError], and one of 2^31 or
    more [OverflowError] (on a panel of non-negative width), each before
    anything is drawn: the image of the full tiles is built before the
    first draw, whether or not a full tile fits.  A tile taller than the
    panel and below 2^31 makes [fill] the single draw of one bitmap of
    the clipped colour covering the whole panel. *)
Theorem fill_edge_cases m color :
  fill color 0 m = Raised ZeroDivisionError /\
  (forall ts, ts < 0 -> fill color ts m = Raised ValueError) /\
  (forall ts, 2 ^ 31 <= ts -> 0 <= width (self m) ->
     fill color ts m = Raised OverflowError) /\
  (forall ts, 0 < height (self m) < ts ->
     Image.size_ok (width (self m), ts) = true ->
     fill color ts m
     = draw 0 0 (Image.solid (width (self m), height (self m)) (Image.clip8 color)) m).
Proof.
  split; [reflexivity|]. split; [|split].
  - intros ts Hts. unfold fill.
    rewrite fill_with_first by (apply keeps_shape_draw || lia).
    rewrite returned_bind. unfold Image.new. cbn [fst snd].
    destruct (Z.ltb_spec ts 0); [|lia]. now rewrite orb_true_r.
  - intros ts Hts Hw. unfold fill.
    rewrite fill_with_first by (apply keeps_shape_draw || lia).
    rewrite returned_bind. unfold Image.new. cbn [fst snd].
    destruct (Z.ltb_spec (width (self m)) 0); [lia|].
    destruct (Z.ltb_spec ts 0); [lia|].
    destruct (Z.leb_spec (2 ^ 31) ts); [|lia]. now rewrite orb_true_r.
  - intros ts Hts Hok. unfold fill.
    rewrite fill_with_solid; [| apply keeps_shape_draw | lia | exact Hok].
    unfold fill_tiles. rewrite Z.div_small, Z.mod_small by lia.
    rewrite range_nil by lia. simpl.
    destruct (Z.eqb_spec (height (self m)) 0); [lia|]. simpl.
    now rewrite for_each_one.
Qed.

Lemma fill_edge_cases_witness :
  fill 0 0 (ready false [0]) = Raised ZeroDivisionError /\
  fill 0 (-1) (ready false [0]) = Raised ValueError /\
  fill 0 (2 ^ 31) (ready false [0]) = Raised OverflowError /\
  fill (-1) 301 (ready false [0])
  = draw 0 0 (Image.solid (400, 300) 0) (ready false [0]).
Proof.
  destruct (fill_edge_cases (ready false [0]) 0) as (Hzero & Hneg & Hbig & _).
  destruct (fill_edge_cases (ready false [0]) (-1)) as (_ & _ & _ & Htall).
  split; [exact Hzero|]. split; [apply Hneg; lia|].
  split; [apply Hbig; [lia | vm_compute; congruence]|].
  apply (Htall 301); [vm_compute; split; congruence | reflexivity].
Defined.

(* ===================================================================== *)
(** ** Negative offsets *)

Lemma index_negative (len : nat) k :
  - Z.of_nat len <= k < 0 -> Py.index len k = Py.index len (k + Z.of_nat len).
Proof.
  intros Hk. unfold Py.index.
  destruct (Z.leb_spec 0 k); [lia|]. simpl.
  destruct (Z.leb_spec (- Z.of_nat len) k); [|lia].
  destruct (Z.ltb_spec k 0); [|lia]. simpl.
  destruct (Z.leb_spec 0 (k + Z.of_nat len)); [|lia].
  destruct (Z.ltb_spec (k + Z.of_nat len) (Z.of_nat len)); [|lia]. simpl.
  f_equal. lia.
Qed.

Lemma fb_get_same_machine k m v m1 o : fb_get k m = Done v m1 o -> m1 = m.
Proof.
  unfold fb_get. destruct (Py.index _ _); [|discriminate].
  destruct (_ !! _); [|discriminate]. intros E. now injection E as _ <- _.
Qed.

Lemma plot_negative m qx idxj idxj' p :
  - Z.of_nat (length (frame_buffer (self m))) <= qx `div` 8 + idxj < 0 ->
  idxj' = idxj + Z.of_nat (length (frame_buffer (self m))) ->
  plot qx idxj p m = plot qx idxj' p m.
Proof.
  intros Hk ->.
  assert (Hi : Py.index (length (frame_buffer (self m))) (qx `div` 8 + idxj)
             = Py.index (length (frame_buffer (self m)))
                 (qx `div` 8 + (idxj + Z.of_nat (length (frame_buffer (self m)))))).
  { rewrite (index_negative _ _ Hk). f_equal. lia. }
  assert (Hget : fb_get (qx `div` 8 + idxj) m
               = fb_get (qx `div` 8 + (idxj + Z.of_nat (length (frame_buffer (self m))))) m).
  { unfold fb_get. now rewrite Hi. }
  assert (Hset : forall v, fb_set (qx `div` 8 + idxj) v m
               = fb_set (qx `div` 8 + (idxj + Z.of_nat (length (frame_buffer (self m))))) v m).
  { intros v. unfold fb_set. now rewrite Hi. }
  unfold plot. destruct (negb (p =? 0)); rewrite !bind_run, <- Hget;
    (destruct (fb_get (qx `div` 8 + idxj) m) as [v m1 o1| |] eqn:E; [|reflexivity..]);
    apply fb_get_same_machine in E as ->; now rewrite Hset.
Qed.

Lemma for_each_keeps {A} (P : machine -> Prop) l (body : A -> M unit) :
  (forall x m a m' o, P m -> body x m = Done a m' o -> P m') ->
  forall m a m' o, P m -> for_each l body m = Done a m' o -> P m'.
Proof.
  intros Hb. induction l as [|x l IH]; intros m a m' o Hm.
  - intros E. injection E as _ <- _. exact Hm.
  - rewrite for_each_cons, bind_run.
    destruct (body x m) as [[] m1 o1| |] eqn:E1; try discriminate.
    destruct (for_each l body m1) as [[] m2 o2| |] eqn:E2; try discriminate.
    simpl. intros E. injection E as _ <- _.
    exact (IH _ _ _ _ (Hb _ _ _ _ _ Hm E1) E2).
Qed.

Lemma for_each_ext_inv_in {A} (P : machine -> Prop) l (f g : A -> M unit) :
  (forall x m, x ∈ l -> P m -> f x m = g x m) ->
  (forall x m a m' o, x ∈ l -> P m -> g x m = Done a m' o -> P m') ->
  forall m, P m -> for_each l f m = for_each l g m.
Proof.
  induction l as [|x l IH]; intros E Hk m Hm; [reflexivity|].
  rewrite !for_each_cons, !bind_run, (E x m ltac:(now left) Hm).
  destruct (g x m) as [[] m1 o1| |] eqn:Hg; [|reflexivity..].
  rewrite (IH (fun x' m' Hx' => E x' m' ltac:(now right))
              (fun x' m' a m'' o Hx' => Hk x' m' a m'' o ltac:(now right))
              m1 (Hk _ _ _ _ _ ltac:(now left) Hm Hg)).
  reflexivity.
Qed.

Lemma plot_keeps_layout W len qx idxj p m a m' o :
  width (self m) = W /\ length (frame_buffer (self m)) = len ->
  plot qx idxj p m = Done a m' o ->
  width (self m') = W /\ length (frame_buffer (self m')) = len.
Proof.
  intros [HW Hl]. unfold plot.
  assert (Hstep : forall g : Z -> Z,
    (v ← fb_get (qx `div` 8 + idxj); fb_set (qx `div` 8 + idxj) (g v)) m = Done a m' o ->
    width (self m') = W /\ length (frame_buffer (self m')) = len).
  { intros g. rewrite bind_run. unfold fb_get, fb_set.
    destruct (Py.index _ _) as [n|] eqn:Hn; [|discriminate].
    destruct (frame_buffer (self m) !! n) as [v|]; [|discriminate].
    simpl. rewrite Hn. simpl. intros E. injection E as _ <- _. simpl.
    now rewrite length_insert. }
  destruct (negb (p =? 0)); apply Hstep.
Qed.

Lemma merge_rows_negative (pixels : Z -> Z -> Z) x y W H len cols rows :
  0 < W -> W `mod` 8 = 0 -> len = H * (W `div` 8) ->
  (forall i, i ∈ cols -> 0 <= x + i < W) ->
  (forall j, j ∈ rows -> 0 <= y + j < H) ->
  forall m0,
    width (self m0) = W /\ Z.of_nat (length (frame_buffer (self m0))) = len ->
    for_each rows (fun j =>
      w ← getattr width;
      for_each cols (fun i => plot (x + i) (((y - H + j) * w) `div` 8) (pixels i j))) m0
    = for_each rows (fun j =>
      w ← getattr width;
      for_each cols (fun i => plot (x + i) (((y + j) * w) `div` 8) (pixels i j))) m0.
Proof.
  intros HW H8 Hlen Hcols Hrows.
  set (P := fun m' : machine =>
    width (self m') = W /\ Z.of_nat (length (frame_buffer (self m'))) = len).
  assert (Hplot : forall qx idxj p m1 a m2 o, P m1 -> plot qx idxj p m1 = Done a m2 o -> P m2).
  { intros qx idxj p m1 a m2 o [HW1 Hl1] E.
    destruct (plot_keeps_layout W (length (frame_buffer (self m1))) _ _ _ _ _ _ _
                (conj HW1 eq_refl) E) as [HW2 Hl2].
    split; [exact HW2 | now rewrite Hl2]. }
  apply (for_each_ext_inv_in P).
  - intros j m1 Hj [HW1 Hl1]. rewrite !bind_run, !getattr_run. cbv beta iota. f_equal.
    rewrite HW1. apply (for_each_ext_inv_in P); [| |now split].
    + intros i m2 Hi [HW2 Hl2].
      pose proof (Hcols i Hi) as Hxi. pose proof (Hrows j Hj) as Hyj.
      assert (0 <= (x + i) `div` 8 < W `div` 8).
      { split; [apply Z.div_pos; lia|]. apply Z.div_lt_upper_bound; [lia|].
        pose proof (Z.div_mod W 8 ltac:(lia)). lia. }
      apply plot_negative; rewrite Hl2, !row_offset by assumption; nia.
    + intros i m2 a m3 o _. apply Hplot.
  - intros j m1 a m2 o _ HP1. rewrite bind_run, getattr_run. cbv beta iota.
    rewrite prepend_nil. apply (for_each_keeps P); [|exact HP1].
    intros i m3 a3 m4 o4. apply Hplot.
Qed.

(** X21.  There is no check on the top edge either: a bitmap placed one
    panel height above a rectangle inside the panel is merged into that
    rectangle, through the negative subscripts of the mirror. *)
Theorem merge_above_panel_wraps m x y B :
  wf (self m) ->
  0 <= x -> x + fst (Image.size B) <= width (self m) ->
  0 <= y -> y + snd (Image.size B) <= height (self m) ->
  set_frame_buffer x (y - height (self m)) B m = set_frame_buffer x y B m.
Proof.
  intros (Hw & H8 & Hh & Hlen) Hx Hxw Hy Hyh. unfold set_frame_buffer.
  destruct (Image.size B) as [imwidth imheight]. simpl in Hxw, Hyh.
  apply (merge_rows_negative (Image.load B) x y (width (self m)) (height (self m))
           (Z.of_nat (length (frame_buffer (self m)))));
    try assumption.
  - rewrite Hlen. replace (width (self m) * height (self m))
      with (height (self m) * width (self m)) by ring. now apply row_offset.
  - intros i Hi. apply elem_of_range in Hi. lia.
  - intros j Hj. apply elem_of_range in Hj. lia.
  - now split.
Qed.

Lemma merge_above_panel_wraps_witness :
  wf (self (power_on [])) /\
  set_frame_buffer 3 (1 - height (self (power_on []))) (Image.solid (2, 1) 0) (power_on [])
  = set_frame_buffer 3 1 (Image.solid (2, 1) 0) (power_on []).
Proof.
  split; [shape_by_compute|].
  apply (merge_above_panel_wraps (power_on []) 3 1 (Image.solid (2, 1) 0));
    try lia; try shape_by_compute; vm_compute; congruence.
Defined.

(* ===================================================================== *)
(** ** How much a draw transfers *)

(** X22.  However small the bitmap, a [draw] transfers the whole mirror:
    once in partial mode, after the register settings and command 0x24,
    and twice in full mode, after 0x24 and after 0x26; the bytes are those
    of the mirror after the merge, [(width * height) div 8] of them. *)
Theorem draw_transfers_whole_mirror m x y B p :
  wf (self m) ->
  0 <= x -> x + fst (Image.size B) <= width (self m) ->
  0 <= y -> y + snd (Image.size B) <= height (self m) ->
  partial_refresh (self m) = Some p ->
  goes_idle (busy_line (hw m)) = true ->
  exists m' o,
    draw x y B m = Done tt m' o /\
    Z.of_nat (length (frame_buffer (self m'))) = (width (self m) * height (self m)) `div` 8 /\
    spi_bytes o
    = if p
      then [0x3C; 0x80; 0x21; 0x00; 0x00; 0x3C; 0x80; 0x44; 0x00; 0x31;
            0x45; 0x00; 0x00; 0x2B; 0x01; 0x4E; 0x00; 0x4F; 0x00; 0x00; 0x24]
           ++ frame_buffer (self m') ++ [0x22; 0xFF; 0x20]
      else [0x24] ++ frame_buffer (self m') ++ [0x26] ++ frame_buffer (self m')
           ++ [0x22; 0xF7; 0x20].
Proof.
  intros Hwf Hx Hxw Hy Hyh Hp H. pose proof Hwf as (_ & _ & _ & Hlen).
  destruct (draw_run m x y B p Hwf Hx Hxw Hy Hyh Hp) as (fb & _ & Hl & _ & Hdraw).
  destruct p.
  - eexists _, _. split; [rewrite Hdraw; apply (display_partial_out (set_mirror fb m) H)|].
    split; [simpl; now rewrite Hl|].
    rewrite !spi_bytes_app, !spi_bytes_data, spi_bytes_polls. simpl.
    now rewrite app_nil_r.
  - eexists _, _. split; [rewrite Hdraw; apply (display_full_run (set_mirror fb m) H)|].
    split; [simpl; now rewrite Hl|].
    rewrite !spi_bytes_app, !spi_bytes_data, spi_bytes_polls. simpl.
    rewrite <- !app_assoc. simpl. now rewrite app_nil_r.
Qed.

Lemma draw_transfers_whole_mirror_witness :
  wf (self (ready true [1; 0])) /\
  exists m' o,
    draw 0 0 (Image.solid (1, 1) 0) (ready true [1; 0]) = Done tt m' o /\
    Z.of_nat (length (frame_buffer (self m'))) = (400 * 300) `div` 8 /\
    spi_bytes o
    = [0x3C; 0x80; 0x21; 0x00; 0x00; 0x3C; 0x80; 0x44; 0x00; 0x31;
       0x45; 0x00; 0x00; 0x2B; 0x01; 0x4E; 0x00; 0x4F; 0x00; 0x00; 0x24]
      ++ frame_buffer (self m') ++ [0x22; 0xFF; 0x20].
Proof.
  split; [shape_by_compute|].
  apply (draw_transfers_whole_mirror (ready true [1; 0]) 0 0 (Image.solid (1, 1) 0) true);
    try lia; try shape_by_compute; vm_compute; congruence.
Defined.
